(** * CPG, the Custom Property Generator: a shallow embedding

    The add-on is one Python module, [custom_properties_generator/__init__.py].
    Its operator [CPG_OT_Generate.execute] resolves the ID blocks a batch is
    placed on, builds one property name per iteration, and calls
    [idprop_apply_ui] once per name and target.  This file embeds those
    functions, with the Python values they handle, and proves the properties
    the specification states about them.

    Python [int] is [Z] (unbounded), Python [float] is the kernel's binary64
    [float], [str] is [string], and a [dict] whose order is observed is an
    association list in insertion order. *)

From Stdlib Require Import ZArith Lia String Ascii List Floats.
From Stdlib Require Import DecimalString DecimalN.
From stdpp Require Import gmap strings list fin_maps functions.

Local Open Scope string_scope.
Local Open Scope Z_scope.

(** ** Python values *)

(** The values a custom property holds and the UI dictionary carries. *)
Inductive pyval : Type :=
  | VInt (z : Z)
  | VFloat (f : float)
  | VBool (b : bool)
  | VStr (s : string).

(** The builtins of the host language that the module calls and that have no
    arithmetic content of their own: [str.strip], the parsers behind
    [int(str)] and [float(str)], and the printer behind [str(float)].  A
    parser answers [None] where Python raises [ValueError].  The last field is
    the host's UI facility: whether [id_properties_ui(key).update_from_dict]
    goes through for an entry that holds the given value, or raises. *)
Record runtime : Type := {
  str_strip : string -> string;
  int_of_str : string -> option Z;
  float_of_str : string -> option float;
  repr_float : float -> string;
  ui_accepts : pyval -> gmap string pyval -> bool;
}.

Module Py.

(** Truth value of a string, as in [if p] and [if not prop_name]. *)
Definition str_truthy (s : string) : bool :=
  match s with EmptyString => false | String _ _ => true end.

(** [str(n)] for an integer. *)
Definition str_of_int (n : Z) : string := NilZero.string_of_int (Z.to_int n).

(** The decimal digits of a natural number, ["0"] for zero. *)
Definition digits (n : N) : string := NilZero.string_of_uint (N.to_uint n).

Fixpoint zeros (k : nat) : string :=
  match k with
  | O => EmptyString
  | S k' => String "0" (zeros k')
  end.

(** Left padding with zeros up to a width; longer strings are kept whole. *)
Definition zfill (width : nat) (s : string) : string :=
  zeros (width - String.length s) +:+ s.

(** [format(n, "03d")]: the sign, when there is one, counts in the width. *)
Definition format_03d (n : Z) : string :=
  if n <? 0 then String "-" (zfill 2 (digits (Z.to_N (- n))))
  else zfill 3 (digits (Z.to_N n)).

(** [''.join(parts)]. *)
Definition join (parts : list string) : string := String.concat "" parts.

(** [int(f)] for a float: truncation towards zero; [None] for the
    [ValueError] on NaN and the [OverflowError] on an infinity. *)
Definition trunc (f : float) : option Z :=
  match Prim2SF f with
  | S754_zero _ => Some 0
  | S754_finite s m e =>
      let a := Z.shiftl (Z.pos m) e in Some (if s then - a else a)
  | S754_infinity _ => None
  | S754_nan => None
  end.

(** [float(n)] for an integer: round to nearest even; [None] for the
    [OverflowError] of an integer beyond the largest finite double. *)
Definition float_of_int (n : Z) : option float :=
  match binary_normalize prec emax n 0 false with
  | S754_infinity _ => None
  | sf => Some (SF2Prim sf)
  end.

(** [a > b] on floats. *)
Definition float_gt (a b : float) : bool := PrimFloat.ltb b a.

Section Conversions.
Context (rt : runtime).

Definition int (v : pyval) : option pyval :=
  match v with
  | VInt z => Some (VInt z)
  | VBool b => Some (VInt (Z.b2z b))
  | VFloat f => VInt <$> trunc f
  | VStr s => VInt <$> int_of_str rt s
  end.

Definition float (v : pyval) : option pyval :=
  match v with
  | VFloat f => Some (VFloat f)
  | VInt z => VFloat <$> float_of_int z
  | VBool b => Some (VFloat (if b then PrimFloat.one else PrimFloat.zero))
  | VStr s => VFloat <$> float_of_str rt s
  end.

Definition truth (v : pyval) : bool :=
  match v with
  | VBool b => b
  | VInt z => negb (z =? 0)
  | VFloat f => negb (PrimFloat.eqb f PrimFloat.zero)
  | VStr s => str_truthy s
  end.

Definition bool (v : pyval) : option pyval := Some (VBool (truth v)).

Definition str (v : pyval) : option pyval :=
  Some (VStr match v with
             | VStr s => s
             | VInt z => str_of_int z
             | VBool b => if b then "True" else "False"
             | VFloat f => repr_float rt f
             end).
End Conversions.

End Py.

(** ** Helpers *)

(** [zero_pad(n)] is [f"{n:03d}_"]. *)
Definition zero_pad (n : Z) : string := Py.format_03d n +:+ "_".

(** The four items of the [prop_type] enum.  The property always holds one of
    them, so the last [else] of the creation stage (any other type) has no
    counterpart here. *)
Inductive prop_type_t : Type := INT | FLOAT | BOOL | STRING.

(** The conversion that [idprop_apply_ui] applies for a property type, and
    the value it falls back on when no default is given. *)
Definition convert (rt : runtime) (ptype : prop_type_t) : pyval -> option pyval :=
  match ptype with
  | INT => Py.int rt
  | FLOAT => Py.float rt
  | BOOL => Py.bool
  | STRING => Py.str rt
  end.

Definition fallback (ptype : prop_type_t) : pyval :=
  match ptype with
  | INT => VInt 0
  | FLOAT => VFloat PrimFloat.zero
  | BOOL => VBool false
  | STRING => VStr ""
  end.

(** ** ID blocks *)

(** An ID block of the host, as far as the add-on sees it: its name, its
    custom properties and the UI data the host keeps per property. *)
Record idblock : Type := {
  id_name : string;
  id_props : gmap string pyval;
  id_ui : gmap string (gmap string pyval);
}.

Module IDBlock.

(** Modelled from the spec: the host's keyed store, which the add-on uses
    through [key in idblock], [idblock.get(key, d)] and [idblock[key] = v];
    an assignment creates or replaces the entry and touches nothing else. *)
Definition contains (key : string) (b : idblock) : bool :=
  bool_decide (is_Some (id_props b !! key)).

Definition get (key : string) (d : pyval) (b : idblock) : pyval :=
  default d (id_props b !! key).

Definition setitem (key : string) (v : pyval) (b : idblock) : idblock :=
  {| id_name := id_name b;
     id_props := <[key := v]> (id_props b);
     id_ui := id_ui b |}.

(** Modelled from the spec: the host's metadata facility,
    [idblock.id_properties_ui(key).update_from_dict(data)].  The fields of
    [data] replace the fields of the same name in the UI data of [key], the
    other fields stay.  Where the host raises (no such property, or an
    update it rejects) nothing is changed; the caller swallows the
    exception. *)
Definition update_ui (rt : runtime) (key : string) (data : gmap string pyval)
    (b : idblock) : idblock :=
  match id_props b !! key with
  | None => b
  | Some v =>
      if ui_accepts rt v data then
        {| id_name := id_name b;
           id_props := id_props b;
           id_ui := <[key := data ∪ default ∅ (id_ui b !! key)]> (id_ui b) |}
      else b
  end.

End IDBlock.

(** [if v is not None: data[k] = v]. *)
Definition set_if_given (k : string) (v : option pyval) (data : gmap string pyval) :
    gmap string pyval :=
  match v with
  | Some x => <[k := x]> data
  | None => data
  end.

(** The dictionary [data] that [idprop_apply_ui] assembles (lines 60-71). *)
Definition ui_data (ptype : prop_type_t) (default min_val max_val : option pyval)
    (desc subtype : option string) (soft_min soft_max : option pyval) :
    gmap string pyval :=
  let data := set_if_given "description" (VStr <$> desc) ∅ in
  match ptype with
  | INT | FLOAT =>
      set_if_given "subtype" (VStr <$> subtype)
        (set_if_given "default" default
          (set_if_given "soft_max" soft_max
            (set_if_given "soft_min" soft_min
              (set_if_given "max" max_val
                (set_if_given "min" min_val data)))))
  | BOOL | STRING => set_if_given "default" default data
  end.

(** [if data:] on a dictionary. *)
Definition dict_truthy (data : gmap string pyval) : bool :=
  match map_to_list data with
  | [] => false
  | _ :: _ => true
  end.

(** The three stages of [idprop_apply_ui].  The first one is outside any
    [try]: a conversion of the default that raises leaves the function, which
    is the [None] here. *)
Definition create_if_missing (rt : runtime) (idb : idblock) (key : string)
    (ptype : prop_type_t) (default : option pyval) : option idblock :=
  if IDBlock.contains key idb then Some idb
  else
    v ← convert rt ptype (match default with Some d => d | None => fallback ptype end);
    Some (IDBlock.setitem key v idb).

(** The second stage: the stored value is converted to the chosen type; an
    exception is swallowed and the entry keeps what it held. *)
Definition ensure_type (rt : runtime) (idb : idblock) (key : string)
    (ptype : prop_type_t) : idblock :=
  match convert rt ptype (IDBlock.get key (fallback ptype) idb) with
  | Some v => IDBlock.setitem key v idb
  | None => idb
  end.

(** The third stage: the UI data, when there is any to set. *)
Definition apply_ui (rt : runtime) (idb : idblock) (key : string)
    (data : gmap string pyval) : idblock :=
  if dict_truthy data then IDBlock.update_ui rt key data idb else idb.

(** [idprop_apply_ui(idblock, key, *, ptype, default, min_val, max_val, desc,
    subtype, soft_min, soft_max)]; an argument left at [None] is [None]
    here.  The block is modified in place, so the result is its new state. *)
Definition idprop_apply_ui (rt : runtime) (idb : idblock) (key : string)
    (ptype : prop_type_t) (default min_val max_val : option pyval)
    (desc subtype : option string) (soft_min soft_max : option pyval) :
    option idblock :=
  created ← create_if_missing rt idb key ptype default;
  let typed := ensure_type rt created key ptype in
  Some (apply_ui rt typed key
          (ui_data ptype default min_val max_val desc subtype soft_min soft_max)).

(** ** The form *)

Inductive float_subtype_t : Type :=
  | NONE | PERCENTAGE | FACTOR | ANGLE | TIME | DISTANCE.

Definition subtype_id (st : float_subtype_t) : string :=
  match st with
  | NONE => "NONE"
  | PERCENTAGE => "PERCENTAGE"
  | FACTOR => "FACTOR"
  | ANGLE => "ANGLE"
  | TIME => "TIME"
  | DISTANCE => "DISTANCE"
  end.

(** The items [target_items_callback] can offer; [PLACEMENT_NONE] is the
    value of the dynamic enum when none of them is selected, which [execute]
    handles in its last [else]. *)
Inductive placement_t : Type :=
  | OBJECT | DATA | ACTIVE_MATERIAL | ALL_MATERIALS | PLACEMENT_NONE.

(** [CPG_Props], field by field. *)
Record CPG_Props : Type := {
  count : Z;
  prop_type : prop_type_t;
  int_default : Z;
  int_min : Z;
  int_max : Z;
  float_default : float;
  float_min : float;
  float_max : float;
  float_soft_min : float;
  float_soft_max : float;
  float_subtype : float_subtype_t;
  bool_default : bool;
  string_default : string;
  string_description : string;
  base_name : string;
  free_prefix : string;
  free_suffix : string;
  auto_increment : bool;
  increment_start_from : Z;
  increment_as_prefix : bool;
  placement : placement_t;
  overwrite_existing : bool;
}.

(** ** The scene *)

(** ID blocks are Python objects: they have an identity, and the operator
    writes into them in place.  A reference is that identity; the heap gives
    the state of every block. *)
Abbreviation ref := nat (only parsing).
Abbreviation heap := (ref -> idblock) (only parsing).

(** The active object: itself an ID block, with its data block if it has
    one, its active material if there is one, and its material slots, each
    one filled or empty. *)
Record bobject : Type := {
  ob_self : ref;
  ob_data : option ref;
  ob_active_material : option ref;
  ob_material_slots : list (option ref);
}.

Record context : Type := {
  cpg_props : CPG_Props;
  active_object : option bobject;
}.

(** ** Dictionaries in insertion order *)

(** [d[k] = v] on a dictionary kept as an association list: a key that is
    there keeps its place and takes the new value, a new key goes last. *)
Fixpoint dict_set {V : Type} (k : string) (v : V) (d : list (string * V)) :
    list (string * V) :=
  match d with
  | [] => [(k, v)]
  | (k', v') :: d' =>
      if String.eqb k' k then (k', v) :: d' else (k', v') :: dict_set k v d'
  end.

(** [{key(x): x for x in xs}]. *)
Definition dict_by {V : Type} (key : V -> string) (xs : list V) : list (string * V) :=
  foldl (fun d x => dict_set (key x) x d) [] xs.

(** [list(d.values())]. *)
Definition dict_values {V : Type} (d : list (string * V)) : list V := map snd d.

(** ** The operator *)

Inductive op_status : Type := FINISHED | CANCELLED.
Inductive report_level : Type := INFO | ERROR.

(** What a call of [execute] leaves behind: the set it returns with the
    report it made and the heap, or an exception that left the function. *)
Inductive outcome : Type :=
  | Returned (st : op_status) (level : report_level) (message : string) (h : heap)
  | Raised (h : heap).

(** Lines 211-235: the ID blocks for the placement, or the error reported. *)
Definition resolve_targets (h : heap) (pl : placement_t) (obj : bobject) :
    string + list ref :=
  match pl with
  | OBJECT => inr [ob_self obj]
  | DATA =>
      match ob_data obj with
      | None => inl "Selected object has no Data block."
      | Some d => inr [d]
      end
  | ACTIVE_MATERIAL =>
      match ob_active_material obj with
      | None => inl "Active material not found on object."
      | Some mat => inr [mat]
      end
  | ALL_MATERIALS =>
      let mats := omap id (ob_material_slots obj) in
      match mats with
      | [] => inl "No materials on object."
      | _ :: _ => inr (dict_values (dict_by (fun m => id_name (h m)) mats))
      end
  | PLACEMENT_NONE => inr [ob_self obj]
  end.

(** Line 238. *)
Definition start_index (props : CPG_Props) : Z :=
  if increment_start_from props >? 0 then increment_start_from props else 1.

(** Lines 242-246: the parts of a name, in order. *)
Definition name_parts (props : CPG_Props) (idx : Z) : list string :=
  let num := if auto_increment props then zero_pad idx else "" in
  if increment_as_prefix props
  then [free_prefix props; num; base_name props; free_suffix props]
  else [free_prefix props; base_name props; num; free_suffix props].

(** Line 249. *)
Definition prop_name (props : CPG_Props) (idx : Z) : string :=
  Py.join (List.filter Py.str_truthy (name_parts props idx)).

(** Lines 270-272 and 281-284: [if lo > hi: lo, hi = hi, lo]. *)
Definition order_ints (lo hi : Z) : Z * Z :=
  if lo >? hi then (hi, lo) else (lo, hi).

Definition order_floats (lo hi : float) : float * float :=
  if Py.float_gt lo hi then (hi, lo) else (lo, hi).

(** The local variables that lines 256-288 set for a property: what goes to
    [idprop_apply_ui] besides the name. *)
Record prop_args : Type := {
  a_ptype : prop_type_t;
  a_default : option pyval;
  a_min_val : option pyval;
  a_max_val : option pyval;
  a_soft_min : option pyval;
  a_soft_max : option pyval;
  a_subtype : option string;
  a_desc : string;
}.

(** Line 264. *)
Definition description (rt : runtime) (props : CPG_Props) : string :=
  if Py.str_truthy (string_description props)
  then str_strip rt (string_description props)
  else "".

(** Lines 256-288. *)
Definition prop_values (rt : runtime) (props : CPG_Props) : prop_args :=
  let desc := description rt props in
  match prop_type props with
  | INT =>
      let '(min_val, max_val) := order_ints (int_min props) (int_max props) in
      {| a_ptype := INT;
         a_default := Some (VInt (int_default props));
         a_min_val := Some (VInt min_val);
         a_max_val := Some (VInt max_val);
         a_soft_min := None;
         a_soft_max := None;
         a_subtype := Some "NONE";
         a_desc := desc |}
  | FLOAT =>
      let '(min_val, max_val) := order_floats (float_min props) (float_max props) in
      let '(soft_min, soft_max) :=
        order_floats (float_soft_min props) (float_soft_max props) in
      {| a_ptype := FLOAT;
         a_default := Some (VFloat (float_default props));
         a_min_val := Some (VFloat min_val);
         a_max_val := Some (VFloat max_val);
         a_soft_min := Some (VFloat soft_min);
         a_soft_max := Some (VFloat soft_max);
         a_subtype := Some (subtype_id (float_subtype props));
         a_desc := desc |}
  | BOOL =>
      {| a_ptype := BOOL;
         a_default := Some (VBool (bool_default props));
         a_min_val := None;
         a_max_val := None;
         a_soft_min := None;
         a_soft_max := None;
         a_subtype := Some "NONE";
         a_desc := desc |}
  | STRING =>
      {| a_ptype := STRING;
         a_default := Some (VStr (string_default props));
         a_min_val := None;
         a_max_val := None;
         a_soft_min := None;
         a_soft_max := None;
         a_subtype := Some "NONE";
         a_desc := desc |}
  end.

(** A loop either goes on with its state or leaves [execute]. *)
Inductive flow (A : Type) : Type :=
  | Continue (a : A)
  | Leave (o : outcome).
Arguments Continue {A} a.
Arguments Leave {A} o.

(** Lines 296-307: the call, with [desc if desc else None]. *)
Definition apply_args (rt : runtime) (idb : idblock) (name : string)
    (args : prop_args) : option idblock :=
  idprop_apply_ui rt idb name (a_ptype args) (a_default args)
    (a_min_val args) (a_max_val args)
    (if Py.str_truthy (a_desc args) then Some (a_desc args) else None)
    (a_subtype args) (a_soft_min args) (a_soft_max args).

(** Lines 291-307: the loop over the targets for one name. *)
Fixpoint apply_to_targets (rt : runtime) (overwrite : bool) (name : string)
    (args : prop_args) (idblocks : list ref) (h : heap) : flow heap :=
  match idblocks with
  | [] => Continue h
  | idb :: rest =>
      if IDBlock.contains name (h idb) && negb overwrite
      then apply_to_targets rt overwrite name args rest h
      else
        match apply_args rt (h idb) name args with
        | Some b => apply_to_targets rt overwrite name args rest (<[idb := b]> h)
        | None => Leave (Raised h)
        end
  end.

Definition empty_name_message : string :=
  "Resulting property name is empty. Please set Name/Prefix/Suffix.".

(** Lines 241-309: one iteration of the loop over [range(props.count)], on
    the running index and the heap. *)
Definition loop_body (rt : runtime) (props : CPG_Props) (idblocks : list ref)
    (idx : Z) (h : heap) : flow (Z * heap) :=
  let name := prop_name props idx in
  if negb (Py.str_truthy name)
  then Leave (Returned CANCELLED ERROR empty_name_message h)
  else
    match apply_to_targets rt (overwrite_existing props) name
            (prop_values rt props) idblocks h with
    | Continue h' => Continue (idx + 1, h')
    | Leave o => Leave o
    end.

(** Line 240: [n] iterations. *)
Fixpoint generate_loop (rt : runtime) (props : CPG_Props) (idblocks : list ref)
    (n : nat) (idx : Z) (h : heap) : flow (Z * heap) :=
  match n with
  | O => Continue (idx, h)
  | S n' =>
      match loop_body rt props idblocks idx h with
      | Continue (idx', h') => generate_loop rt props idblocks n' idx' h'
      | Leave o => Leave o
      end
  end.

(** Line 311. *)
Definition created_message (props : CPG_Props) (idblocks : list ref) : string :=
  "Created " +:+ Py.str_of_int (count props) +:+ " custom propertie(s) on "
  +:+ Py.str_of_int (Z.of_nat (length idblocks)) +:+ " target(s).".

(** [CPG_OT_Generate.execute]. *)
Definition execute (rt : runtime) (ctx : context) (h : heap) : outcome :=
  let props := cpg_props ctx in
  match active_object ctx with
  | None => Returned CANCELLED ERROR "No active object selected." h
  | Some obj =>
      match resolve_targets h (placement props) obj with
      | inl message => Returned CANCELLED ERROR message h
      | inr idblocks =>
          match generate_loop rt props idblocks (Z.to_nat (count props))
                  (start_index props) h with
          | Continue (_, h') =>
              Returned FINISHED INFO (created_message props idblocks) h'
          | Leave o => o
          end
      end
  end.

(** The names of a batch, in the order the loop builds them: the running
    index starts at [idx] and the name of each iteration is [prop_name] at
    the index of that iteration. *)
Fixpoint names_from (props : CPG_Props) (n : nat) (idx : Z) : list string :=
  match n with
  | O => []
  | S n' => prop_name props idx :: names_from props n' (idx + 1)
  end.

Definition generated_names (props : CPG_Props) : list string :=
  names_from props (Z.to_nat (count props)) (start_index props).

(** The loop seen from its names: the targets are written name by name, and
    the first empty name cancels the operator. *)
Fixpoint write_names (rt : runtime) (props : CPG_Props) (idblocks : list ref)
    (names : list string) (h : heap) : flow heap :=
  match names with
  | [] => Continue h
  | name :: rest =>
      if negb (Py.str_truthy name)
      then Leave (Returned CANCELLED ERROR empty_name_message h)
      else
        match apply_to_targets rt (overwrite_existing props) name
                (prop_values rt props) idblocks h with
        | Continue h' => write_names rt props idblocks rest h'
        | Leave o => Leave o
        end
  end.

(** The heap a call of [execute] leaves. *)
Definition final_heap (o : outcome) : heap :=
  match o with
  | Returned _ _ _ h => h
  | Raised h => h
  end.

(** ** Removing repetitions *)

(** A list without its repetitions, by identity: every element once, at the
    place where it comes first. *)
Definition distinct (xs : list ref) : list ref :=
  foldl (fun acc x => if decide (x ∈ acc) then acc else (acc ++ [x])%list) [] xs.

(** ** Reading decimal numerals *)

(** The number a string of decimal digits denotes; [None] when a character
    is not a digit. *)
Definition decimal_value (s : string) : option N :=
  N.of_uint <$> NilEmpty.uint_of_string s.

(** ** Ordered ranges *)

(** That a pair of bounds handed to [idprop_apply_ui] is ordered, with the
    order of the integers or the [<=] of the floats; bounds that are not
    given are not constrained. *)
Definition bounds_ordered (lo hi : option pyval) : Prop :=
  match lo, hi with
  | Some (VInt a), Some (VInt b) => a <= b
  | Some (VFloat a), Some (VFloat b) => PrimFloat.leb a b = true
  | None, None => True
  | _, _ => False
  end.

Definition ranges_ordered (args : prop_args) : Prop :=
  bounds_ordered (a_min_val args) (a_max_val args)
  /\ bounds_ordered (a_soft_min args) (a_soft_max args).

(** ** Forms and scenes to run the operator on *)

(** The form as the property group declares it: every field at its default.
    The dynamic enum [placement] starts on its first item. *)
Definition default_props : CPG_Props :=
  {| count := 1;
     prop_type := INT;
     int_default := 0;
     int_min := 0;
     int_max := 100;
     float_default := PrimFloat.zero;
     float_min := PrimFloat.zero;
     float_max := PrimFloat.one;
     float_soft_min := PrimFloat.zero;
     float_soft_max := PrimFloat.one;
     float_subtype := NONE;
     bool_default := false;
     string_default := "";
     string_description := "";
     base_name := "prop";
     free_prefix := "";
     free_suffix := "";
     auto_increment := false;
     increment_start_from := 0;
     increment_as_prefix := true;
     placement := OBJECT;
     overwrite_existing := true |}.

(** The form with another count, type, placement and overwrite policy. *)
Definition with_batch (p : CPG_Props) (n : Z) (ptype : prop_type_t) (pl : placement_t) (overwrite : bool) : CPG_Props :=
  {| count := n;
     prop_type := ptype;
     int_default := int_default p;
     int_min := int_min p;
     int_max := int_max p;
     float_default := float_default p;
     float_min := float_min p;
     float_max := float_max p;
     float_soft_min := float_soft_min p;
     float_soft_max := float_soft_max p;
     float_subtype := float_subtype p;
     bool_default := bool_default p;
     string_default := string_default p;
     string_description := string_description p;
     base_name := base_name p;
     free_prefix := free_prefix p;
     free_suffix := free_suffix p;
     auto_increment := auto_increment p;
     increment_start_from := increment_start_from p;
     increment_as_prefix := increment_as_prefix p;
     placement := pl;
     overwrite_existing := overwrite |}.

(** The form with other naming fields. *)
Definition with_naming (p : CPG_Props) (prefix : string) (name : string) (suffix : string) (numbered : bool) (start : Z) (number_first : bool) : CPG_Props :=
  {| count := count p;
     prop_type := prop_type p;
     int_default := int_default p;
     int_min := int_min p;
     int_max := int_max p;
     float_default := float_default p;
     float_min := float_min p;
     float_max := float_max p;
     float_soft_min := float_soft_min p;
     float_soft_max := float_soft_max p;
     float_subtype := float_subtype p;
     bool_default := bool_default p;
     string_default := string_default p;
     string_description := string_description p;
     base_name := name;
     free_prefix := prefix;
     free_suffix := suffix;
     auto_increment := numbered;
     increment_start_from := start;
     increment_as_prefix := number_first;
     placement := placement p;
     overwrite_existing := overwrite_existing p |}.

(** The form with another integer default and range. *)
Definition with_int_range (p : CPG_Props) (d : Z) (lo : Z) (hi : Z) : CPG_Props :=
  {| count := count p;
     prop_type := prop_type p;
     int_default := d;
     int_min := lo;
     int_max := hi;
     float_default := float_default p;
     float_min := float_min p;
     float_max := float_max p;
     float_soft_min := float_soft_min p;
     float_soft_max := float_soft_max p;
     float_subtype := float_subtype p;
     bool_default := bool_default p;
     string_default := string_default p;
     string_description := string_description p;
     base_name := base_name p;
     free_prefix := free_prefix p;
     free_suffix := free_suffix p;
     auto_increment := auto_increment p;
     increment_start_from := increment_start_from p;
     increment_as_prefix := increment_as_prefix p;
     placement := placement p;
     overwrite_existing := overwrite_existing p |}.

(** The form with other float bounds. *)
Definition with_float_range (p : CPG_Props) (lo : float) (hi : float) (soft_lo : float) (soft_hi : float) : CPG_Props :=
  {| count := count p;
     prop_type := prop_type p;
     int_default := int_default p;
     int_min := int_min p;
     int_max := int_max p;
     float_default := float_default p;
     float_min := lo;
     float_max := hi;
     float_soft_min := soft_lo;
     float_soft_max := soft_hi;
     float_subtype := float_subtype p;
     bool_default := bool_default p;
     string_default := string_default p;
     string_description := string_description p;
     base_name := base_name p;
     free_prefix := free_prefix p;
     free_suffix := free_suffix p;
     auto_increment := auto_increment p;
     increment_start_from := increment_start_from p;
     increment_as_prefix := increment_as_prefix p;
     placement := placement p;
     overwrite_existing := overwrite_existing p |}.

(** The form with another boolean default. *)
Definition with_bool_default (p : CPG_Props) (d : bool) : CPG_Props :=
  {| count := count p;
     prop_type := prop_type p;
     int_default := int_default p;
     int_min := int_min p;
     int_max := int_max p;
     float_default := float_default p;
     float_min := float_min p;
     float_max := float_max p;
     float_soft_min := float_soft_min p;
     float_soft_max := float_soft_max p;
     float_subtype := float_subtype p;
     bool_default := d;
     string_default := string_default p;
     string_description := string_description p;
     base_name := base_name p;
     free_prefix := free_prefix p;
     free_suffix := free_suffix p;
     auto_increment := auto_increment p;
     increment_start_from := increment_start_from p;
     increment_as_prefix := increment_as_prefix p;
     placement := placement p;
     overwrite_existing := overwrite_existing p |}.

(** A runtime for the examples: no string parses as a number, [strip] is
    used on strings without blanks only, every float prints as ["0.0"], and
    the host takes every UI update. *)
Definition sample_runtime : runtime :=
  {| str_strip := fun s => s;
     int_of_str := fun _ => None;
     float_of_str := fun _ => None;
     repr_float := fun _ => "0.0";
     ui_accepts := fun _ _ => true |}.

(** Three booleans numbered from 1, the number first. *)
Definition numbered_props : CPG_Props :=
  with_naming (with_batch default_props 3 BOOL OBJECT true)
    "" "prop" "" true 0 true.

(** Two properties with prefix and suffix and no number. *)
Definition plain_props : CPG_Props :=
  with_naming (with_batch default_props 2 INT OBJECT true)
    "a_" "prop" "_b" false 0 true.

(** Nothing to make a name from. *)
Definition nameless_props : CPG_Props :=
  with_naming (with_batch default_props 2 INT OBJECT true)
    "" "" "" false 0 true.

(** An integer range typed the wrong way round. *)
Definition reversed_props : CPG_Props :=
  with_int_range (with_batch default_props 1 INT OBJECT true) 5 10 0.

(** A float range whose lower bound is not a number. *)
Definition nan_props : CPG_Props :=
  with_float_range (with_batch default_props 1 FLOAT OBJECT true)
    PrimFloat.nan PrimFloat.one PrimFloat.zero PrimFloat.one.

(** Float ranges typed the wrong way round. *)
Definition reversed_float_props : CPG_Props :=
  with_float_range (with_batch default_props 1 FLOAT OBJECT true)
    PrimFloat.one PrimFloat.zero PrimFloat.two PrimFloat.one.

(** Two flags, true by default, on all the materials: the end-to-end
    example. *)
Definition flag_props : CPG_Props :=
  with_naming
    (with_bool_default (with_batch default_props 2 BOOL ALL_MATERIALS true) true)
    "" "flag" "" true 0 true.

(** A scene of blocks without custom properties: the object 0, its mesh 1,
    and materials from 2 on.  Material 4 comes from a linked library and
    bears the name of the local material 2. *)
Definition scene_names (r : ref) : string :=
  match r with
  | 0%nat => "Cube"
  | 1%nat => "Mesh"
  | 2%nat => "Metal"
  | 3%nat => "Glass"
  | 4%nat => "Metal"
  | _ => "Material"
  end.

Definition bare_scene : heap :=
  fun r => {| id_name := scene_names r; id_props := ∅; id_ui := ∅ |}.

(** The cube with materials 2 and 3, the first one in two slots, and an
    empty slot. *)
Definition cube : bobject :=
  {| ob_self := 0%nat;
     ob_data := Some 1%nat;
     ob_active_material := Some 2%nat;
     ob_material_slots := [Some 2%nat; None; Some 3%nat; Some 2%nat] |}.

(** The cube with the two materials called Metal. *)
Definition cube_linked : bobject :=
  {| ob_self := 0%nat;
     ob_data := Some 1%nat;
     ob_active_material := Some 2%nat;
     ob_material_slots := [Some 2%nat; Some 4%nat] |}.

(** The form of the end-to-end example with the cube as active object, and
    with the cube whose two materials share a name. *)
Definition flag_context : context :=
  {| cpg_props := flag_props; active_object := Some cube |}.

Definition linked_context : context :=
  {| cpg_props := flag_props; active_object := Some cube_linked |}.

(** The form without anything to name the properties, on the cube. *)
Definition nameless_context : context :=
  {| cpg_props := nameless_props; active_object := Some cube |}.

(** A block that holds the integer 7 under ["x"], and the scene where the
    cube is that block. *)
Definition block_x7 : idblock :=
  {| id_name := "Cube"; id_props := {["x" := VInt 7]}; id_ui := ∅ |}.

Definition scene_x7 : heap := <[0%nat := block_x7]> bare_scene.

(** One integer called ["x"] on the object, existing properties kept. *)
Definition keep_props : CPG_Props :=
  with_naming (with_int_range (with_batch default_props 1 INT OBJECT false) 5 0 10)
    "" "x" "" false 0 true.

Definition keep_context : context :=
  {| cpg_props := keep_props; active_object := Some cube |}.

(** ** The placement menu *)

(** The identifier of a placement, as the enum stores it; the empty string
    when no item is selected. *)
Definition placement_id (pl : placement_t) : string :=
  match pl with
  | OBJECT => "OBJECT"
  | DATA => "DATA"
  | ACTIVE_MATERIAL => "ACTIVE_MATERIAL"
  | ALL_MATERIALS => "ALL_MATERIALS"
  | PLACEMENT_NONE => ""
  end.

(** [get_targets_for_object(obj)]: the enum items (identifier, name,
    description) for the object.  Every object of the host has
    [material_slots], empty when its kind takes no material, so the
    [hasattr] test holds and [has_slots] is [len(obj.material_slots) > 0]. *)
Definition get_targets_for_object (obj : bobject) : list (string * string * string) :=
  let items := [("OBJECT", "Object Properties", "Place on the Object datablock")] in
  let items :=
    match ob_data obj with
    | Some _ =>
        (items ++ [("DATA", "Object Data Properties",
                    "Place on the Object Data datablock")])%list
    | None => items
    end in
  let has_slots := (0 <? length (ob_material_slots obj))%nat in
  if has_slots
  then (items ++
        [("ACTIVE_MATERIAL", "Active Material", "Place on the active material only");
         ("ALL_MATERIALS", "All Materials",
          "Place on every assigned material slot that has a material")])%list
  else items.

(** [target_items_callback(self, context)]. *)
Definition target_items_callback (ctx : context) : list (string * string * string) :=
  match active_object ctx with
  | None => [("OBJECT", "Object Properties", "Place on the Object datablock")]
  | Some obj => get_targets_for_object obj
  end.

(** The identifiers of a list of enum items. *)
Definition item_ids (items : list (string * string * string)) : list string :=
  map (fun it => it.1.1) items.

(** ** The panel *)

(** [CPG_PT_Panel.poll]. *)
Definition poll (ctx : context) : bool :=
  match active_object ctx with
  | Some _ => true
  | None => false
  end.

(** What [draw] puts into a layout: labels, property fields ([layout.prop]),
    separators,
    operator buttons, and the columns, rows and boxes that hold them. *)
#[warnings="-register-all"]
Inductive widget : Type :=
  | Label (text icon : string)
  | Field (name : string)
  | Separator (factor : float)
  | Operator (idname text icon : string)
  | Column (align : bool) (children : list widget)
  | Row (align : bool) (children : list widget)
  | Box (children : list widget).

(** Lines 343-363: the box for the chosen type. *)
Definition type_box (props : CPG_Props) : list widget :=
  match prop_type props with
  | INT =>
      [Row true [Field "int_default"];
       Row true [Field "int_min"; Field "int_max"]]
  | FLOAT =>
      [Row true [Field "float_default"; Field "float_subtype"];
       Row true [Field "float_min"; Field "float_max"];
       Row true [Field "float_soft_min"; Field "float_soft_max"]]
  | BOOL => [Field "bool_default"]
  | STRING => [Field "string_default"; Field "string_description"]
  end.

(** Lines 368-377: the box for the naming. *)
Definition name_box (props : CPG_Props) : list widget :=
  ([Field "base_name";
    Row true [Field "free_prefix"; Field "free_suffix"];
    Field "auto_increment"]
   ++ (if auto_increment props
       then [Row true [Field "increment_start_from"; Field "increment_as_prefix"]]
       else []))%list.

(** [CPG_PT_Panel.draw]: the children of the panel's layout, in order.
    Without an active object [obj.name] raises, which is the [None]. *)
Definition draw (ctx : context) (h : heap) : option (list widget) :=
  let props := cpg_props ctx in
  match active_object ctx with
  | None => None
  | Some obj =>
      Some [Column true
              [Label ("Active: " +:+ id_name (h (ob_self obj))) "OBJECT_DATA";
               Field "count"];
            Separator 0.5;
            Column true [Field "prop_type"];
            Box (type_box props);
            Separator 0.5;
            Box (name_box props);
            Separator 0.5;
            Box [Field "placement"; Field "overwrite_existing"];
            Separator 0.5;
            Column false [Operator "cpg.generate" "Generate" "CHECKMARK"]]
  end.

(** The property fields of a layout, in the order they are drawn. *)
Fixpoint fields_of (w : widget) : list string :=
  match w with
  | Field name => [name]
  | Column _ children | Row _ children | Box children =>
      List.flat_map fields_of children
  | Label _ _ | Separator _ | Operator _ _ _ => []
  end.

Definition shown_fields (layout : list widget) : list string :=
  List.flat_map fields_of layout.

(** The operator buttons of a layout. *)
Fixpoint operators_of (w : widget) : list string :=
  match w with
  | Operator idname _ _ => [idname]
  | Column _ children | Row _ children | Box children =>
      List.flat_map operators_of children
  | Label _ _ | Separator _ | Field _ => []
  end.

(** That two forms have the same value in the field of a given name. *)
Definition same_field (field : string) (p q : CPG_Props) : Prop :=
  if String.eqb field "count" then count p = count q
  else if String.eqb field "prop_type" then prop_type p = prop_type q
  else if String.eqb field "int_default" then int_default p = int_default q
  else if String.eqb field "int_min" then int_min p = int_min q
  else if String.eqb field "int_max" then int_max p = int_max q
  else if String.eqb field "float_default" then float_default p = float_default q
  else if String.eqb field "float_min" then float_min p = float_min q
  else if String.eqb field "float_max" then float_max p = float_max q
  else if String.eqb field "float_soft_min" then float_soft_min p = float_soft_min q
  else if String.eqb field "float_soft_max" then float_soft_max p = float_soft_max q
  else if String.eqb field "float_subtype" then float_subtype p = float_subtype q
  else if String.eqb field "bool_default" then bool_default p = bool_default q
  else if String.eqb field "string_default" then string_default p = string_default q
  else if String.eqb field "string_description"
    then string_description p = string_description q
  else if String.eqb field "base_name" then base_name p = base_name q
  else if String.eqb field "free_prefix" then free_prefix p = free_prefix q
  else if String.eqb field "free_suffix" then free_suffix p = free_suffix q
  else if String.eqb field "auto_increment" then auto_increment p = auto_increment q
  else if String.eqb field "increment_start_from"
    then increment_start_from p = increment_start_from q
  else if String.eqb field "increment_as_prefix"
    then increment_as_prefix p = increment_as_prefix q
  else if String.eqb field "placement" then placement p = placement q
  else if String.eqb field "overwrite_existing"
    then overwrite_existing p = overwrite_existing q
  else False.

(** ** What a run leaves under a name *)

(** The default of the form for the chosen type, as line 267, 274, 286 or
    288 computes it. *)
Definition form_default (props : CPG_Props) : pyval :=
  match prop_type props with
  | INT => VInt (int_default props)
  | FLOAT => VFloat (float_default props)
  | BOOL => VBool (bool_default props)
  | STRING => VStr (string_default props)
  end.

(** The conversion of a stored value where it succeeds, the value itself
    where it raises. *)
Definition coerced (rt : runtime) (ptype : prop_type_t) (v : pyval) : pyval :=
  match convert rt ptype v with
  | Some v' => v'
  | None => v
  end.

(** The value under a name on a target, after the targets have been written
    for that name, from what was there before: a new entry takes the default,
    an entry that exists is converted when [overwrite_existing] is set and
    kept as it is otherwise. *)
Definition value_after (rt : runtime) (props : CPG_Props) (old : option pyval) : pyval :=
  match old with
  | None => form_default props
  | Some v => if overwrite_existing props then coerced rt (prop_type props) v else v
  end.

(** The UI dictionary that a run hands to the host for every entry. *)
Definition run_data (rt : runtime) (props : CPG_Props) : gmap string pyval :=
  let args := prop_values rt props in
  ui_data (a_ptype args) (a_default args) (a_min_val args) (a_max_val args)
    (if Py.str_truthy (a_desc args) then Some (a_desc args) else None)
    (a_subtype args) (a_soft_min args) (a_soft_max args).

(** The UI data under a name on a target after the targets have been written
    for that name: untouched where the entry was skipped or the host refused
    the update, and the dictionary of the run laid over the old data
    otherwise. *)
Definition ui_after (rt : runtime) (props : CPG_Props) (old : option pyval)
    (old_ui : option (gmap string pyval)) : option (gmap string pyval) :=
  match old with
  | Some _ =>
      if overwrite_existing props
      then if ui_accepts rt (value_after rt props old) (run_data rt props)
           then Some (run_data rt props ∪ default ∅ old_ui)
           else old_ui
      else old_ui
  | None =>
      if ui_accepts rt (value_after rt props old) (run_data rt props)
      then Some (run_data rt props ∪ default ∅ old_ui)
      else old_ui
  end.

(** ** The fields of a UI dictionary *)

(** What a call of [idprop_apply_ui] gives for the UI field [f]: the
    description for every type, the bounds, the default and the subtype for
    the numeric types, the default alone for the others; [None] where the
    argument is [None] or the field is not one the type takes. *)
Definition given_field (ptype : prop_type_t) (dflt min_val max_val : option pyval)
    (desc subtype : option string) (soft_min soft_max : option pyval)
    (f : string) : option pyval :=
  if String.eqb "description" f then VStr <$> desc
  else
    match ptype with
    | INT | FLOAT =>
        if String.eqb "min" f then min_val
        else if String.eqb "max" f then max_val
        else if String.eqb "soft_min" f then soft_min
        else if String.eqb "soft_max" f then soft_max
        else if String.eqb "default" f then dflt
        else if String.eqb "subtype" f then VStr <$> subtype
        else None
    | BOOL | STRING =>
        if String.eqb "default" f then dflt else None
    end.

(** The property type a value is of. *)
Definition kind_of (v : pyval) : prop_type_t :=
  match v with
  | VInt _ => INT
  | VFloat _ => FLOAT
  | VBool _ => BOOL
  | VStr _ => STRING
  end.

(** * Properties *)

(** ** Names *)

Lemma decimal_value_digit0 (s : string) :
  decimal_value (String "0" s) = decimal_value s.
Proof.
  unfold decimal_value. simpl.
  destruct (NilEmpty.uint_of_string s); reflexivity.
Qed.

Lemma decimal_value_zeros (k : nat) (s : string) :
  decimal_value (Py.zeros k +:+ s) = decimal_value s.
Proof.
  induction k as [|k IH]; [reflexivity|].
  change (Py.zeros (S k) +:+ s) with (String "0" (Py.zeros k +:+ s)).
  rewrite decimal_value_digit0. exact IH.
Qed.

Lemma decimal_value_digits (n : N) : decimal_value (Py.digits n) = Some n.
Proof.
  unfold decimal_value, Py.digits, NilZero.string_of_uint.
  pose proof (DecimalN.Unsigned.of_to n) as Hn.
  destruct (N.to_uint n) eqn:E;
    try (rewrite <- E, NilEmpty.usu; simpl; congruence).
  simpl in Hn. subst n. discriminate E.
Qed.

Lemma length_append (s t : string) :
  String.length (s +:+ t) = (String.length s + String.length t)%nat.
Proof. induction s as [|c s IH]; simpl; [reflexivity | now rewrite IH]. Qed.

Lemma length_zeros (k : nat) : String.length (Py.zeros k) = k.
Proof. induction k; simpl; congruence. Qed.

Lemma length_zfill (w : nat) (s : string) :
  String.length (Py.zfill w s) = Nat.max w (String.length s).
Proof.
  unfold Py.zfill. rewrite length_append, length_zeros. lia.
Qed.

Lemma format_03d_nonneg (n : Z) :
  0 <= n -> Py.format_03d n = Py.zfill 3 (Py.digits (Z.to_N n)).
Proof.
  intros Hn. unfold Py.format_03d.
  destruct (Z.ltb_spec n 0); [lia | reflexivity].
Qed.

Lemma append_empty_r (s : string) : s +:+ "" = s.
Proof.
  induction s as [|c s IH]; [reflexivity|].
  change (String c (s +:+ "") = String c s). now f_equal.
Qed.

Lemma join_foldr (parts : list string) :
  Py.join parts = foldr String.append "" parts.
Proof.
  unfold Py.join.
  induction parts as [|x rest IH]; [reflexivity|].
  cbn [foldr]. rewrite <- IH.
  destruct rest as [|y rest]; [symmetry; apply append_empty_r | reflexivity].
Qed.

(** Leaving the empty parts out and joining is appending all the parts. *)
Lemma join_truthy_parts (parts : list string) :
  Py.join (List.filter Py.str_truthy parts) = foldr String.append "" parts.
Proof.
  rewrite join_foldr.
  induction parts as [|x rest IH]; simpl; [reflexivity|].
  destruct x as [|c x]; simpl; now rewrite IH.
Qed.

Lemma prop_name_append (props : CPG_Props) (idx : Z) :
  prop_name props idx =
    let num := if auto_increment props then zero_pad idx else "" in
    if increment_as_prefix props
    then free_prefix props +:+ num +:+ base_name props +:+ free_suffix props
    else free_prefix props +:+ base_name props +:+ num +:+ free_suffix props.
Proof.
  unfold prop_name, name_parts. rewrite join_truthy_parts.
  destruct (increment_as_prefix props); simpl; now rewrite append_empty_r.
Qed.

Lemma length_names_from (props : CPG_Props) (n : nat) (idx : Z) :
  length (names_from props n idx) = n.
Proof. revert idx; induction n as [|n IH]; intros idx; simpl; [|rewrite IH]; reflexivity. Qed.

Lemma lookup_names_from (props : CPG_Props) (n i : nat) (idx : Z) :
  (i < n)%nat ->
  names_from props n idx !! i = Some (prop_name props (idx + Z.of_nat i)).
Proof.
  revert i idx; induction n as [|n IH]; intros i idx Hi; [lia|].
  destruct i as [|i]; simpl.
  - now rewrite Z.add_0_r.
  - rewrite IH by lia. do 2 f_equal. lia.
Qed.

(** The loop of [execute] writes the names of [names_from], one after the
    other, and leaves the running index advanced by their number. *)
Lemma generate_loop_names (rt : runtime) (props : CPG_Props)
    (idblocks : list ref) (n : nat) (idx : Z) (h : heap) :
  generate_loop rt props idblocks n idx h =
    match write_names rt props idblocks (names_from props n idx) h with
    | Continue h' => Continue (idx + Z.of_nat n, h')
    | Leave o => Leave o
    end.
Proof.
  revert idx h; induction n as [|n IH]; intros idx h.
  - simpl. now rewrite Z.add_0_r.
  - cbn [generate_loop names_from write_names]. unfold loop_body.
    destruct (negb (Py.str_truthy (prop_name props idx))); [reflexivity|].
    destruct (apply_to_targets _ _ _ _ _ _) as [h'|o]; [|reflexivity].
    rewrite IH. destruct (write_names _ _ _ _ _); [|reflexivity].
    do 2 f_equal. lia.
Qed.

Lemma start_index_pos (props : CPG_Props) : 1 <= start_index props.
Proof. unfold start_index. destruct (Z.gtb_spec (increment_start_from props) 0); lia. Qed.

(** The token of [zero_pad] at an index that is not negative: its digits
    read back as the index, and there are three of them or as many as the
    index has, whichever is more. *)
Lemma zero_pad_digits (idx : Z) :
  0 <= idx ->
  exists s, zero_pad idx = s +:+ "_"
    /\ decimal_value s = Some (Z.to_N idx)
    /\ String.length s = Nat.max 3 (String.length (Py.digits (Z.to_N idx))).
Proof.
  intros Hidx. exists (Py.zfill 3 (Py.digits (Z.to_N idx))).
  unfold zero_pad. rewrite format_03d_nonneg by exact Hidx.
  split; [reflexivity|]. split.
  - unfold Py.zfill. now rewrite decimal_value_zeros, decimal_value_digits.
  - apply length_zfill.
Qed.

(** C1: with [auto_increment] on, the [i]-th name of a batch of [count >= 1]
    names is the concatenation, without separator, of the non-empty parts
    among prefix, number token, base name and suffix when the number goes
    first, and among prefix, base name, number token and suffix otherwise.
    The token is [s ++ "_"], where [s] is the running index
    [start + i] ([start] being [increment_start_from] when that is positive
    and 1 otherwise) in decimal, padded with zeros to three digits and
    longer when the index needs more: 1 gives ["001_"], 1000 gives
    ["1000_"]. *)
Theorem auto_increment_names (props : CPG_Props) (i : nat) :
  auto_increment props = true ->
  1 <= count props ->
  (i < Z.to_nat (count props))%nat ->
  let start :=
    if increment_start_from props >? 0 then increment_start_from props else 1 in
  let idx := start + Z.of_nat i in
  exists s : string,
    let number_token := s +:+ "_" in
    let parts :=
      if increment_as_prefix props
      then [free_prefix props; number_token; base_name props; free_suffix props]
      else [free_prefix props; base_name props; number_token; free_suffix props] in
    generated_names props !! i = Some (Py.join (List.filter Py.str_truthy parts))
    /\ Py.join (List.filter Py.str_truthy parts) = foldr String.append "" parts
    /\ zero_pad idx = number_token
    /\ decimal_value s = Some (Z.to_N idx)
    /\ Z.of_N (Z.to_N idx) = idx
    /\ String.length s = Nat.max 3 (String.length (Py.digits (Z.to_N idx)))
    /\ zero_pad 1 = "001_"
    /\ zero_pad 1000 = "1000_".
Proof.
  intros Hauto Hcount Hi start idx.
  assert (Hstart : 1 <= start) by apply start_index_pos.
  assert (Hidx : 0 <= idx) by (unfold idx; lia).
  destruct (zero_pad_digits idx Hidx) as (s & Htok & Hval & Hlen).
  exists s. cbv zeta.
  split; [|split; [apply join_truthy_parts|]].
  - unfold generated_names. rewrite lookup_names_from by exact Hi.
    unfold prop_name, name_parts. rewrite Hauto.
    change (start_index props + Z.of_nat i) with idx.
    now rewrite Htok.
  - repeat split; try assumption; try reflexivity. lia.
Qed.

(** ** The conversions of the form's own values succeed *)

Lemma prop_values_ptype (rt : runtime) (props : CPG_Props) :
  a_ptype (prop_values rt props) = prop_type props.
Proof.
  unfold prop_values.
  destruct (prop_type props);
    repeat match goal with |- context [let '(_, _) := ?p in _] => destruct p end;
    reflexivity.
Qed.

Lemma prop_values_default (rt : runtime) (props : CPG_Props) :
  a_default (prop_values rt props) =
    Some match prop_type props with
         | INT => VInt (int_default props)
         | FLOAT => VFloat (float_default props)
         | BOOL => VBool (bool_default props)
         | STRING => VStr (string_default props)
         end.
Proof.
  unfold prop_values.
  destruct (prop_type props);
    repeat match goal with |- context [let '(_, _) := ?p in _] => destruct p end;
    reflexivity.
Qed.

(** The default that [execute] passes is of the chosen type already, so its
    conversion is the identity. *)
Lemma convert_default (rt : runtime) (props : CPG_Props) :
  forall d, a_default (prop_values rt props) = Some d ->
  convert rt (a_ptype (prop_values rt props)) d = Some d.
Proof.
  intros d. rewrite prop_values_default, prop_values_ptype.
  intros [= <-]. destruct (prop_type props); reflexivity.
Qed.

Lemma apply_args_returns (rt : runtime) (props : CPG_Props) (idb : idblock)
    (name : string) :
  is_Some (apply_args rt idb name (prop_values rt props)).
Proof.
  unfold apply_args, idprop_apply_ui, create_if_missing.
  destruct (IDBlock.contains name idb); [eexists; reflexivity|].
  destruct (a_default (prop_values rt props)) as [d|] eqn:Hd.
  - rewrite (convert_default rt props d Hd). eexists; reflexivity.
  - rewrite prop_values_default in Hd. discriminate.
Qed.

Lemma apply_to_targets_continues (rt : runtime) (props : CPG_Props)
    (overwrite : bool) (name : string) (idblocks : list ref) (h : heap) :
  exists h', apply_to_targets rt overwrite name (prop_values rt props) idblocks h
             = Continue h'.
Proof.
  revert h; induction idblocks as [|idb rest IH]; intros h; simpl.
  - eexists; reflexivity.
  - destruct (IDBlock.contains name (h idb) && negb overwrite); [apply IH|].
    destruct (apply_args_returns rt props (h idb) name) as [b ->]. apply IH.
Qed.

Lemma loop_body_continues (rt : runtime) (props : CPG_Props) (idblocks : list ref)
    (idx : Z) (h : heap) :
  Py.str_truthy (prop_name props idx) = true ->
  exists h', loop_body rt props idblocks idx h = Continue (idx + 1, h').
Proof.
  intros Hname. unfold loop_body. rewrite Hname. simpl.
  destruct (apply_to_targets_continues rt props (overwrite_existing props)
              (prop_name props idx) idblocks h) as [h' ->].
  eexists; reflexivity.
Qed.

Lemma loop_body_index (rt : runtime) (props : CPG_Props) (idblocks : list ref)
    (idx : Z) (h : heap) :
  match loop_body rt props idblocks idx h with
  | Continue (idx', _) => idx' = idx + 1
  | Leave _ => True
  end.
Proof.
  unfold loop_body. destruct (negb _); [exact I|].
  destruct (apply_to_targets _ _ _ _ _ _); [reflexivity | exact I].
Qed.

Lemma generate_loop_index (rt : runtime) (props : CPG_Props) (idblocks : list ref)
    (n : nat) (idx : Z) (h : heap) :
  match generate_loop rt props idblocks n idx h with
  | Continue (idx', _) => idx' = idx + Z.of_nat n
  | Leave _ => True
  end.
Proof.
  rewrite generate_loop_names. destruct (write_names _ _ _ _ _); [reflexivity | exact I].
Qed.

Lemma generate_loop_continues (rt : runtime) (props : CPG_Props)
    (idblocks : list ref) (n : nat) (idx : Z) (h : heap) :
  (forall j, (j < n)%nat -> Py.str_truthy (prop_name props (idx + Z.of_nat j)) = true) ->
  exists h', generate_loop rt props idblocks n idx h = Continue (idx + Z.of_nat n, h').
Proof.
  revert idx h; induction n as [|n IH]; intros idx h Hnames.
  - exists h. simpl. now rewrite Z.add_0_r.
  - cbn [generate_loop].
    destruct (loop_body_continues rt props idblocks idx h) as [h1 ->].
    { specialize (Hnames 0%nat). rewrite Z.add_0_r in Hnames. apply Hnames. lia. }
    destruct (IH (idx + 1) h1) as [h2 ->].
    { intros j Hj. specialize (Hnames (S j)).
      replace (idx + 1 + Z.of_nat j) with (idx + Z.of_nat (S j)) by lia.
      apply Hnames. lia. }
    exists h2. do 2 f_equal. lia.
Qed.

(** C7: with [auto_increment] off no number is put in a name: the names of
    a batch are all the concatenation of the non-empty parts among prefix,
    base name and suffix, whatever the start index and the position chosen
    for the number.  The running index is still advanced by one in every
    iteration that reaches its end, and so by [n] over [n] of them. *)
Theorem names_without_increment (rt : runtime) (props : CPG_Props)
    (idblocks : list ref) (h : heap) :
  auto_increment props = false ->
  let parts := [free_prefix props; base_name props; free_suffix props] in
  let name := Py.join (List.filter Py.str_truthy parts) in
  name = free_prefix props +:+ base_name props +:+ free_suffix props
  /\ (forall idx, prop_name props idx = name)
  /\ (forall i, (i < Z.to_nat (count props))%nat ->
        generated_names props !! i = Some name)
  /\ (forall idx,
        match loop_body rt props idblocks idx h with
        | Continue (idx', _) => idx' = idx + 1
        | Leave _ => True
        end)
  /\ (forall n idx,
        match generate_loop rt props idblocks n idx h with
        | Continue (idx', _) => idx' = idx + Z.of_nat n
        | Leave _ => True
        end)
  /\ (Py.str_truthy name = true ->
        forall n idx, exists h',
          generate_loop rt props idblocks n idx h = Continue (idx + Z.of_nat n, h')).
Proof.
  intros Hauto parts name.
  assert (Hname : forall idx, prop_name props idx = name).
  { intros idx. unfold prop_name, name_parts. rewrite Hauto.
    destruct (increment_as_prefix props); reflexivity. }
  split; [|split; [exact Hname|split; [|split; [|split]]]].
  - unfold name. rewrite join_truthy_parts. simpl. now rewrite append_empty_r.
  - intros i Hi. unfold generated_names.
    rewrite lookup_names_from by exact Hi. now rewrite Hname.
  - intros idx. apply loop_body_index.
  - intros n idx. apply generate_loop_index.
  - intros Htruthy n idx. apply generate_loop_continues.
    intros j _. now rewrite Hname.
Qed.

(** ** Empty names *)

Lemma str_truthy_false (s : string) : Py.str_truthy s = false <-> s = "".
Proof. destruct s; simpl; split; congruence. Qed.

Lemma str_truthy_append (s t : string) :
  Py.str_truthy (s +:+ t) = Py.str_truthy s || Py.str_truthy t.
Proof. destruct s; reflexivity. Qed.

Lemma zero_pad_truthy (idx : Z) : Py.str_truthy (zero_pad idx) = true.
Proof.
  unfold zero_pad. rewrite str_truthy_append. apply orb_true_r.
Qed.

Lemma prop_name_truthy (props : CPG_Props) (idx : Z) :
  Py.str_truthy (prop_name props idx) =
    Py.str_truthy (free_prefix props) || Py.str_truthy (base_name props)
    || Py.str_truthy (free_suffix props) || auto_increment props.
Proof.
  rewrite prop_name_append. cbv zeta.
  destruct (increment_as_prefix props), (auto_increment props);
    rewrite !str_truthy_append, ?zero_pad_truthy; simpl;
    destruct (Py.str_truthy (free_prefix props)), (Py.str_truthy (base_name props)),
      (Py.str_truthy (free_suffix props)); reflexivity.
Qed.

(** A name is empty only when nothing was typed and numbering is off, and
    then every name of the batch is. *)
Lemma prop_name_empty (props : CPG_Props) (idx : Z) :
  prop_name props idx = "" ->
  auto_increment props = false /\ forall idx', prop_name props idx' = "".
Proof.
  intros Hempty. apply str_truthy_false in Hempty.
  rewrite prop_name_truthy in Hempty.
  split; [destruct (auto_increment props); [now rewrite orb_true_r in Hempty | reflexivity]|].
  intros idx'. apply str_truthy_false. now rewrite prop_name_truthy.
Qed.

Lemma all_empty_name (props : CPG_Props) (idx : Z) :
  base_name props = "" -> free_prefix props = "" -> free_suffix props = "" ->
  auto_increment props = false ->
  prop_name props idx = "".
Proof.
  intros Hb Hp Hs Ha. apply str_truthy_false.
  now rewrite prop_name_truthy, Hb, Hp, Hs, Ha.
Qed.

Lemma write_names_continues (rt : runtime) (props : CPG_Props)
    (idblocks : list ref) (names : list string) (h : heap) :
  Forall (fun name => Py.str_truthy name = true) names ->
  exists h', write_names rt props idblocks names h = Continue h'.
Proof.
  intros Hall; revert h; induction Hall as [|name rest Hname _ IH]; intros h; simpl.
  - eexists; reflexivity.
  - rewrite Hname. simpl.
    destruct (apply_to_targets_continues rt props (overwrite_existing props)
                name idblocks h) as [h' ->].
    apply IH.
Qed.

Lemma write_names_app (rt : runtime) (props : CPG_Props) (idblocks : list ref)
    (names rest : list string) (h : heap) :
  write_names rt props idblocks (names ++ rest) h =
    match write_names rt props idblocks names h with
    | Continue h' => write_names rt props idblocks rest h'
    | Leave o => Leave o
    end.
Proof.
  revert h; induction names as [|name names IH]; intros h; simpl; [reflexivity|].
  destruct (negb (Py.str_truthy name)); [reflexivity|].
  destruct (apply_to_targets _ _ _ _ _ _); [apply IH | reflexivity].
Qed.

(** Whenever the loop leaves [execute] it is with the empty-name error and
    before any write. *)
Lemma generate_loop_leaves (rt : runtime) (props : CPG_Props)
    (idblocks : list ref) (n : nat) (idx : Z) (h : heap) (o : outcome) :
  generate_loop rt props idblocks n idx h = Leave o ->
  o = Returned CANCELLED ERROR empty_name_message h /\ prop_name props idx = "".
Proof.
  intros Hleave.
  destruct (Py.str_truthy (prop_name props idx)) eqn:Hname.
  - destruct (generate_loop_continues rt props idblocks n idx h) as [h' Hcont].
    + intros j _. rewrite prop_name_truthy in Hname |- *. exact Hname.
    + congruence.
  - destruct n as [|n]; [discriminate|].
    cbn [generate_loop] in Hleave. unfold loop_body in Hleave.
    rewrite Hname in Hleave. simpl in Hleave.
    split; [congruence | now apply str_truthy_false].
Qed.

Lemma resolve_targets_message (h : heap) (pl : placement_t) (obj : bobject)
    (message : string) :
  resolve_targets h pl obj = inl message -> message <> empty_name_message.
Proof.
  unfold resolve_targets.
  destruct pl, (ob_data obj), (ob_active_material obj),
    (omap id (ob_material_slots obj)); intros [= <-]; discriminate.
Qed.

(** C10: a run that fails on an empty name has modified nothing.  An empty
    name needs [auto_increment] off, the number token being never empty, and
    then all the names of the batch are that same empty name, so that it is
    the first iteration which fails, before the first write. *)
Theorem empty_name_failure_atomic (rt : runtime) (ctx : context) (h h' : heap) :
  execute rt ctx h = Returned CANCELLED ERROR empty_name_message h' ->
  h' = h
  /\ auto_increment (cpg_props ctx) = false
  /\ (forall idx, Py.str_truthy (zero_pad idx) = true)
  /\ (forall idx, prop_name (cpg_props ctx) idx = "").
Proof.
  unfold execute. intros Hrun.
  destruct (active_object ctx) as [obj|]; [|discriminate].
  destruct (resolve_targets h (placement (cpg_props ctx)) obj) as [msg|idblocks] eqn:Hres.
  { apply resolve_targets_message in Hres. congruence. }
  destruct (generate_loop _ _ _ _ _ _) as [[idx' h1]|o] eqn:Hloop; [discriminate|].
  apply generate_loop_leaves in Hloop as [-> Hname].
  apply prop_name_empty in Hname as [Hauto Hall].
  repeat split; [congruence | exact Hauto | apply zero_pad_truthy | exact Hall].
Qed.

Lemma execute_on_targets (rt : runtime) (ctx : context) (obj : bobject)
    (idblocks : list ref) (h : heap) :
  active_object ctx = Some obj ->
  resolve_targets h (placement (cpg_props ctx)) obj = inr idblocks ->
  execute rt ctx h =
    match write_names rt (cpg_props ctx) idblocks (generated_names (cpg_props ctx)) h with
    | Continue h' =>
        Returned FINISHED INFO (created_message (cpg_props ctx) idblocks) h'
    | Leave o => o
    end.
Proof.
  intros Hobj Hres. unfold execute. rewrite Hobj, Hres, generate_loop_names.
  fold (generated_names (cpg_props ctx)).
  destruct (write_names _ _ _ _ _); reflexivity.
Qed.

(** C5: when a name of the batch comes out empty, the run fails with the
    empty-name error.  The check is made name by name; at the first empty
    name the operator returns, and the heap it leaves is the one reached by
    writing the names before it, with nothing written for that name or a
    later one.  In particular a batch with base name, prefix and suffix
    empty and [auto_increment] off fails so. *)
Theorem empty_name_aborts (rt : runtime) (ctx : context) (obj : bobject)
    (idblocks : list ref) (h : heap) :
  active_object ctx = Some obj ->
  resolve_targets h (placement (cpg_props ctx)) obj = inr idblocks ->
  let props := cpg_props ctx in
  (forall i : nat,
      generated_names props !! i = Some "" ->
      (forall j name, (j < i)%nat -> generated_names props !! j = Some name ->
                      name <> "") ->
      exists h_i,
        write_names rt props idblocks (take i (generated_names props)) h
          = Continue h_i
        /\ execute rt ctx h = Returned CANCELLED ERROR empty_name_message h_i)
  /\ (base_name props = "" -> free_prefix props = "" -> free_suffix props = "" ->
      auto_increment props = false -> 1 <= count props ->
      execute rt ctx h = Returned CANCELLED ERROR empty_name_message h).
Proof.
  intros Hobj Hres props.
  assert (Hfirst : forall i : nat,
      generated_names props !! i = Some "" ->
      (forall j name, (j < i)%nat -> generated_names props !! j = Some name ->
                      name <> "") ->
      exists h_i,
        write_names rt props idblocks (take i (generated_names props)) h
          = Continue h_i
        /\ execute rt ctx h = Returned CANCELLED ERROR empty_name_message h_i).
  { intros i Hi Hbefore.
    destruct (write_names_continues rt props idblocks
                (take i (generated_names props)) h) as [h_i Hh_i].
    { apply Forall_forall. intros name Hin.
      apply list_elem_of_In, list_elem_of_lookup in Hin as [j Hj].
      apply lookup_take_Some in Hj as [Hj Hlt].
      destruct (Py.str_truthy name) eqn:Hname; [reflexivity|].
      apply str_truthy_false in Hname. now apply Hbefore in Hj. }
    exists h_i. split; [exact Hh_i|].
    rewrite (execute_on_targets rt ctx obj idblocks h Hobj Hres). fold props.
    rewrite <- (take_drop_middle _ _ _ Hi) at 1.
    rewrite write_names_app, Hh_i. reflexivity. }
  split; [exact Hfirst|].
  intros Hb Hp Hs Ha Hcount.
  destruct (Hfirst 0%nat) as (h0 & Hh0 & Hrun).
  - unfold generated_names.
    rewrite lookup_names_from by lia.
    f_equal. now apply all_empty_name.
  - intros j name Hj. lia.
  - simpl in Hh0. congruence.
Qed.

(** ** Ranges *)

Lemma order_ints_spec (lo hi : Z) :
  order_ints lo hi = (Z.min lo hi, Z.max lo hi).
Proof. unfold order_ints. destruct (Z.gtb_spec lo hi); f_equal; lia. Qed.

Lemma SFcompare_antisym (x y : spec_float) :
  SFcompare y x = CompOpp <$> SFcompare x y.
Proof.
  destruct x as [sx|sx| |sx mx ex], y as [sy|sy| |sy my ey]; simpl;
    try reflexivity; try (destruct sx; reflexivity); try (destruct sy; reflexivity);
    try (destruct sx, sy; reflexivity).
  change (Pos.compare_cont Eq my mx) with (my ?= mx)%positive.
  change (Pos.compare_cont Eq mx my) with (mx ?= my)%positive.
  rewrite (Z.compare_antisym ex ey), (Pos.compare_antisym mx my).
  destruct sx, sy; try reflexivity;
    destruct (ex ?= ey); try reflexivity;
    destruct (mx ?= my)%positive; reflexivity.
Qed.

Lemma SFcompare_total (x y : spec_float) :
  x <> S754_nan -> y <> S754_nan -> exists c, SFcompare x y = Some c.
Proof.
  intros Hx Hy.
  destruct x as [sx|sx| |sx mx ex], y as [sy|sy| |sy my ey];
    try congruence; simpl; eexists; reflexivity.
Qed.

Lemma is_nan_false (x : PrimFloat.float) :
  PrimFloat.is_nan x = false -> Prim2SF x <> S754_nan.
Proof.
  unfold PrimFloat.is_nan. rewrite FloatAxioms.eqb_spec. intros Hx Hnan.
  rewrite Hnan in Hx. discriminate.
Qed.

(** On floats that are numbers, [not (a > b)] is [a <= b]. *)
Lemma float_gt_leb (a b : PrimFloat.float) :
  PrimFloat.is_nan a = false -> PrimFloat.is_nan b = false ->
  PrimFloat.leb a b = negb (Py.float_gt a b)
  /\ (Py.float_gt a b = true -> PrimFloat.leb b a = true).
Proof.
  intros Ha%is_nan_false Hb%is_nan_false. unfold Py.float_gt.
  rewrite !FloatAxioms.leb_spec, FloatAxioms.ltb_spec. unfold SFleb, SFltb.
  rewrite (SFcompare_antisym (Prim2SF a) (Prim2SF b)).
  destruct (SFcompare_total _ _ Ha Hb) as [c ->].
  destruct c; simpl; split; congruence.
Qed.

Lemma order_floats_spec (a b : PrimFloat.float) :
  PrimFloat.is_nan a = false -> PrimFloat.is_nan b = false ->
  forall lo hi, order_floats a b = (lo, hi) ->
  PrimFloat.leb lo hi = true
  /\ (lo, hi) = (if Py.float_gt a b then (b, a) else (a, b)).
Proof.
  intros Ha Hb lo hi. unfold order_floats.
  destruct (float_gt_leb a b Ha Hb) as [Hle Hgt].
  destruct (Py.float_gt a b); intros [= <- <-]; split; auto.
Qed.

Lemma bounds_ordered_ints (lo hi : Z) :
  forall a b, order_ints lo hi = (a, b) ->
  bounds_ordered (Some (VInt a)) (Some (VInt b)).
Proof. intros a b. rewrite order_ints_spec. intros [= <- <-]. simpl. lia. Qed.

Lemma SFcompare_refl (x : spec_float) :
  x <> S754_nan -> SFcompare x x = Some Eq.
Proof.
  destruct x as [s|s| |s m e]; intros Hx; try congruence; simpl.
  - reflexivity.
  - now destruct s.
  - change (Pos.compare_cont Eq m m) with (m ?= m)%positive.
    rewrite Z.compare_refl, Pos.compare_refl. now destruct s.
Qed.

Lemma is_nan_true (x : PrimFloat.float) :
  PrimFloat.is_nan x = true -> Prim2SF x = S754_nan.
Proof.
  unfold PrimFloat.is_nan. rewrite FloatAxioms.eqb_spec. unfold SFeqb.
  intros Hx. destruct (Prim2SF x) as [s|s| |s m e] eqn:Hsf; try reflexivity;
    rewrite SFcompare_refl in Hx by discriminate; discriminate.
Qed.

(** A NaN is neither greater than nor at most anything, and nothing is
    greater than or at most a NaN. *)
Lemma nan_unordered (a b : PrimFloat.float) :
  PrimFloat.is_nan a = true \/ PrimFloat.is_nan b = true ->
  Py.float_gt a b = false /\ PrimFloat.leb a b = false.
Proof.
  unfold Py.float_gt. rewrite FloatAxioms.ltb_spec, FloatAxioms.leb_spec.
  unfold SFltb, SFleb.
  intros [Hnan%is_nan_true|Hnan%is_nan_true]; rewrite Hnan.
  - destruct (Prim2SF b); split; reflexivity.
  - destruct (Prim2SF a); split; reflexivity.
Qed.

(** C6, amended: after lines 266-284 each pair of bounds is the pair of the
    form, swapped when its first member is greater than the second one and
    kept otherwise, one pair independently of the other; 10 and 0 become 0
    and 10.  The bounds of an integer property are then ordered.  The
    bounds of a float property are ordered when neither of them is NaN, and
    so are its soft bounds when neither of these is NaN.  A pair with a NaN
    in it is kept as it is, NaN being greater than nothing, and is not
    ordered. *)
Theorem ranges_normalized (rt : runtime) (props : CPG_Props) :
  let args := prop_values rt props in
  match prop_type props with
  | INT =>
      let swap := int_min props >? int_max props in
      a_min_val args = Some (VInt (if swap then int_max props else int_min props))
      /\ a_max_val args = Some (VInt (if swap then int_min props else int_max props))
      /\ ranges_ordered args
  | FLOAT =>
      let swap := Py.float_gt (float_min props) (float_max props) in
      let soft_swap := Py.float_gt (float_soft_min props) (float_soft_max props) in
      a_min_val args = Some (VFloat (if swap then float_max props else float_min props))
      /\ a_max_val args = Some (VFloat (if swap then float_min props else float_max props))
      /\ a_soft_min args =
           Some (VFloat (if soft_swap then float_soft_max props else float_soft_min props))
      /\ a_soft_max args =
           Some (VFloat (if soft_swap then float_soft_min props else float_soft_max props))
      /\ (PrimFloat.is_nan (float_min props) = false ->
          PrimFloat.is_nan (float_max props) = false ->
          bounds_ordered (a_min_val args) (a_max_val args))
      /\ (PrimFloat.is_nan (float_soft_min props) = false ->
          PrimFloat.is_nan (float_soft_max props) = false ->
          bounds_ordered (a_soft_min args) (a_soft_max args))
      /\ (PrimFloat.is_nan (float_min props) = true
          \/ PrimFloat.is_nan (float_max props) = true ->
          swap = false /\ ~ bounds_ordered (a_min_val args) (a_max_val args))
      /\ (PrimFloat.is_nan (float_soft_min props) = true
          \/ PrimFloat.is_nan (float_soft_max props) = true ->
          soft_swap = false
          /\ ~ bounds_ordered (a_soft_min args) (a_soft_max args))
  | BOOL | STRING =>
      a_min_val args = None /\ a_max_val args = None /\ ranges_ordered args
  end
  /\ order_ints 10 0 = (0, 10).
Proof.
  intros args. split; [|reflexivity].
  unfold args, prop_values, ranges_ordered.
  destruct (prop_type props) eqn:Hty.
  - destruct (order_ints _ _) as [lo hi] eqn:Hord. simpl.
    pose proof (bounds_ordered_ints _ _ _ _ Hord) as Hle.
    unfold order_ints in Hord.
    destruct (int_min props >? int_max props); injection Hord as <- <-;
      repeat split; try reflexivity; exact Hle.
  - assert (Hpair : forall a b lo hi, order_floats a b = (lo, hi) ->
        lo = (if Py.float_gt a b then b else a)
        /\ hi = (if Py.float_gt a b then a else b)
        /\ (PrimFloat.is_nan a = false -> PrimFloat.is_nan b = false ->
            PrimFloat.leb lo hi = true)
        /\ (PrimFloat.is_nan a = true \/ PrimFloat.is_nan b = true ->
            Py.float_gt a b = false /\ PrimFloat.leb lo hi <> true)).
    { intros a b lo hi Hord. split; [|split; [|split]].
      - unfold order_floats in Hord.
        destruct (Py.float_gt a b); now injection Hord as <- <-.
      - unfold order_floats in Hord.
        destruct (Py.float_gt a b); now injection Hord as <- <-.
      - intros Ha Hb. now destruct (order_floats_spec a b Ha Hb lo hi Hord).
      - intros Hnan. destruct (nan_unordered a b Hnan) as [Hgt Hle].
        split; [exact Hgt|]. unfold order_floats in Hord. rewrite Hgt in Hord.
        injection Hord as <- <-. rewrite Hle. discriminate. }
    destruct (order_floats (float_min props) _) as [lo hi] eqn:Hord.
    destruct (order_floats (float_soft_min props) _) as [slo shi] eqn:Hsoft.
    destruct (Hpair _ _ _ _ Hord) as (Hlo & Hhi & Hnum & Hnan).
    destruct (Hpair _ _ _ _ Hsoft) as (Hslo & Hshi & Hsnum & Hsnan).
    simpl. rewrite <- Hlo, <- Hhi, <- Hslo, <- Hshi.
    repeat split; try reflexivity; try assumption.
    + now apply Hnan.
    + now apply Hnan.
    + now apply Hsnan.
    + now apply Hsnan.
  - simpl. repeat split; reflexivity.
  - simpl. repeat split; reflexivity.
Qed.

(** C6 as stated fails on a float range with a NaN in it: NaN is not greater
    than 1, so the pair is kept, and NaN is not below 1 either. *)
Lemma ranges_not_ordered_nan :
  a_min_val (prop_values sample_runtime nan_props) = Some (VFloat PrimFloat.nan)
  /\ a_max_val (prop_values sample_runtime nan_props) = Some (VFloat PrimFloat.one)
  /\ ~ ranges_ordered (prop_values sample_runtime nan_props).
Proof.
  split; [reflexivity|]. split; [reflexivity|].
  intros [Hmain _]. vm_compute in Hmain. discriminate Hmain.
Qed.

Lemma ranges_normalized_witness :
  ranges_ordered (prop_values sample_runtime reversed_float_props)
  /\ a_min_val (prop_values sample_runtime reversed_props) = Some (VInt 0)
  /\ a_max_val (prop_values sample_runtime reversed_props) = Some (VInt 10)
  /\ ~ bounds_ordered (a_min_val (prop_values sample_runtime nan_props))
        (a_max_val (prop_values sample_runtime nan_props))
  /\ bounds_ordered (a_soft_min (prop_values sample_runtime nan_props))
       (a_soft_max (prop_values sample_runtime nan_props)).
Proof.
  destruct (ranges_normalized sample_runtime reversed_float_props)
    as [(_ & _ & _ & _ & Hmain & Hsoft & _ & _) _].
  destruct (ranges_normalized sample_runtime reversed_props)
    as [(Hmin & Hmax & _) _].
  destruct (ranges_normalized sample_runtime nan_props)
    as [(_ & _ & _ & _ & _ & Hnsoft & Hnan & _) _].
  split; [split; [apply Hmain | apply Hsoft]; reflexivity|].
  split; [exact Hmin|]. split; [exact Hmax|].
  split; [apply Hnan; left; reflexivity | apply Hnsoft; reflexivity].
Defined.

(** ** [idprop_apply_ui] on one block *)

Lemma contains_lookup (key : string) (b : idblock) (v : pyval) :
  id_props b !! key = Some v -> IDBlock.contains key b = true.
Proof.
  intros Hv. unfold IDBlock.contains. apply bool_decide_eq_true. now exists v.
Qed.

Lemma contains_false (key : string) (b : idblock) :
  IDBlock.contains key b = false -> id_props b !! key = None.
Proof.
  unfold IDBlock.contains. intros Hc%bool_decide_eq_false.
  destruct (id_props b !! key) eqn:E; [|reflexivity].
  exfalso. apply Hc. now eexists.
Qed.

(** A converted value is of the chosen type, and converting it again gives
    it back. *)
Lemma convert_idem (rt : runtime) (ptype : prop_type_t) (v v' : pyval) :
  convert rt ptype v = Some v' -> convert rt ptype v' = Some v'.
Proof.
  destruct ptype, v; simpl; unfold Py.bool, Py.str;
    try (intros [= <-]; reflexivity);
    try (destruct (Py.trunc _); intros [= <-]; reflexivity);
    try (destruct (Py.float_of_int _); intros [= <-]; reflexivity);
    try (destruct (int_of_str _ _); intros [= <-]; reflexivity);
    try (destruct (float_of_str _ _); intros [= <-]; reflexivity).
  all: destruct b; intros [= <-]; reflexivity.
Qed.

Lemma idblock_eq (b b' : idblock) :
  id_name b = id_name b' -> id_props b = id_props b' -> id_ui b = id_ui b' ->
  b = b'.
Proof. destruct b, b'; simpl; intros -> -> ->; reflexivity. Qed.

Lemma ensure_type_props (rt : runtime) (b : idblock) (key : string)
    (ptype : prop_type_t) (v : pyval) :
  id_props b !! key = Some v ->
  let b' := ensure_type rt b key ptype in
  id_props b' =
    <[key := match convert rt ptype v with Some v' => v' | None => v end]> (id_props b)
  /\ id_ui b' = id_ui b /\ id_name b' = id_name b.
Proof.
  intros Hv. unfold ensure_type, IDBlock.get. rewrite Hv. simpl.
  destruct (convert rt ptype v); simpl; repeat split; try reflexivity.
  symmetry. now apply insert_id.
Qed.

(** Once the type has been ensured, ensuring it again changes nothing, on
    any block with the same properties. *)
Lemma ensure_type_settled (rt : runtime) (b b' : idblock) (key : string)
    (ptype : prop_type_t) :
  is_Some (id_props b !! key) ->
  id_props b' = id_props (ensure_type rt b key ptype) ->
  ensure_type rt b' key ptype = b'.
Proof.
  intros [v Hv] Hprops.
  destruct (ensure_type_props rt b key ptype v Hv) as (Hp & _ & _).
  rewrite Hp in Hprops. unfold ensure_type, IDBlock.get at 1.
  rewrite Hprops, lookup_insert_eq. simpl.
  destruct (convert rt ptype v) as [v'|] eqn:Hconv.
  - rewrite (convert_idem rt ptype v v' Hconv).
    apply idblock_eq; try reflexivity. simpl.
    apply insert_id. now rewrite Hprops, lookup_insert_eq.
  - now rewrite Hconv.
Qed.

Lemma dict_truthy_empty (data : gmap string pyval) :
  dict_truthy data = false <-> data = ∅.
Proof.
  unfold dict_truthy. rewrite <- map_to_list_empty_iff.
  destruct (map_to_list data); split; congruence.
Qed.

Lemma apply_ui_spec (rt : runtime) (b : idblock) (key : string)
    (data : gmap string pyval) (v : pyval) :
  id_props b !! key = Some v ->
  let b' := apply_ui rt b key data in
  id_props b' = id_props b /\ id_name b' = id_name b
  /\ id_ui b' =
       if dict_truthy data && ui_accepts rt v data
       then <[key := data ∪ default ∅ (id_ui b !! key)]> (id_ui b)
       else id_ui b.
Proof.
  intros Hv. unfold apply_ui, IDBlock.update_ui. rewrite Hv.
  destruct (dict_truthy data), (ui_accepts rt v data); simpl; repeat split; reflexivity.
Qed.

Lemma apply_ui_idem (rt : runtime) (b : idblock) (key : string)
    (data : gmap string pyval) :
  apply_ui rt (apply_ui rt b key data) key data = apply_ui rt b key data.
Proof.
  unfold apply_ui. destruct (dict_truthy data); [|reflexivity].
  unfold IDBlock.update_ui at 2.
  destruct (id_props b !! key) as [v|] eqn:Hv; [|unfold IDBlock.update_ui; now rewrite Hv].
  destruct (ui_accepts rt v data) eqn:Hacc;
    [|unfold IDBlock.update_ui; now rewrite Hv, Hacc].
  unfold IDBlock.update_ui. simpl. rewrite Hv, Hacc.
  apply idblock_eq; try reflexivity. simpl.
  rewrite lookup_insert_eq. simpl.
  rewrite (assoc_L (∪)), (idemp_L (∪)). apply insert_insert_eq.
Qed.

Lemma idprop_apply_ui_existing (rt : runtime) (idb : idblock) (key : string)
    (ptype : prop_type_t) (dflt min_val max_val : option pyval)
    (desc subtype : option string) (soft_min soft_max : option pyval) :
  IDBlock.contains key idb = true ->
  idprop_apply_ui rt idb key ptype dflt min_val max_val desc subtype soft_min soft_max
  = Some (apply_ui rt (ensure_type rt idb key ptype) key
            (ui_data ptype dflt min_val max_val desc subtype soft_min soft_max)).
Proof.
  intros Hc. unfold idprop_apply_ui, create_if_missing. now rewrite Hc.
Qed.

Lemma lookup_set_if_given (k : string) (o : option pyval)
    (data : gmap string pyval) (f : string) :
  set_if_given k o data !! f =
    if String.eqb k f
    then match o with Some x => Some x | None => data !! f end
    else data !! f.
Proof.
  unfold set_if_given.
  destruct (String.eqb_spec k f) as [->|Hne], o as [x|]; try reflexivity.
  - apply lookup_insert_eq.
  - now apply lookup_insert_ne.
Qed.

(** The dictionary of [idprop_apply_ui], field by field. *)
Lemma ui_data_lookup (ptype : prop_type_t) (dflt min_val max_val : option pyval)
    (desc subtype : option string) (soft_min soft_max : option pyval) (f : string) :
  ui_data ptype dflt min_val max_val desc subtype soft_min soft_max !! f
  = given_field ptype dflt min_val max_val desc subtype soft_min soft_max f.
Proof.
  unfold ui_data, given_field.
  destruct ptype; rewrite !lookup_set_if_given, lookup_empty;
    repeat match goal with
           | |- context [String.eqb ?a f] =>
               destruct (String.eqb_spec a f) as [<-|?]
           end;
    destruct dflt, min_val, max_val, desc, subtype, soft_min, soft_max;
    reflexivity.
Qed.


Lemma apply_ui_props (rt : runtime) (b : idblock) (key : string)
    (data : gmap string pyval) :
  id_props (apply_ui rt b key data) = id_props b.
Proof.
  unfold apply_ui, IDBlock.update_ui.
  destruct (dict_truthy data), (id_props b !! key) as [v|]; try reflexivity.
  destruct (ui_accepts rt v data); reflexivity.
Qed.

Lemma create_if_missing_contains (rt : runtime) (b c : idblock) (key : string)
    (ptype : prop_type_t) (dflt : option pyval) :
  create_if_missing rt b key ptype dflt = Some c -> is_Some (id_props c !! key).
Proof.
  unfold create_if_missing, IDBlock.contains.
  case_bool_decide as Hc; [now intros [= <-]|].
  destruct (convert rt ptype _) as [v|]; simpl; intros [= <-].
  simpl. rewrite lookup_insert_eq. now eexists.
Qed.

(** C8: a second call of [idprop_apply_ui] with the arguments of the first
    one leaves the block as the first call left it, stored value and UI
    data alike. *)
Theorem apply_twice_same_state (rt : runtime) (idb idb1 : idblock) (key : string)
    (ptype : prop_type_t) (dflt min_val max_val : option pyval)
    (desc subtype : option string) (soft_min soft_max : option pyval) :
  idprop_apply_ui rt idb key ptype dflt min_val max_val desc subtype
    soft_min soft_max = Some idb1 ->
  idprop_apply_ui rt idb1 key ptype dflt min_val max_val desc subtype
    soft_min soft_max = Some idb1.
Proof.
  unfold idprop_apply_ui at 1.
  destruct (create_if_missing rt idb key ptype dflt) as [c|] eqn:Hc; [|discriminate].
  simpl. intros [= <-].
  apply create_if_missing_contains in Hc.
  set (data := ui_data ptype dflt min_val max_val desc subtype soft_min soft_max).
  set (typed := ensure_type rt c key ptype).
  assert (Hprops : id_props (apply_ui rt typed key data) = id_props typed)
    by apply apply_ui_props.
  rewrite idprop_apply_ui_existing.
  - fold data. f_equal.
    rewrite (ensure_type_settled rt c _ key ptype Hc Hprops).
    apply apply_ui_idem.
  - destruct Hc as [v Hv].
    destruct (ensure_type_props rt c key ptype v Hv) as (Hp & _ & _).
    eapply contains_lookup. rewrite Hprops. unfold typed. rewrite Hp.
    apply lookup_insert_eq.
Qed.

(** ** What a call leaves alone *)

Lemma create_if_missing_other (rt : runtime) (b c : idblock) (name : string)
    (ptype : prop_type_t) (dflt : option pyval) :
  create_if_missing rt b name ptype dflt = Some c ->
  id_ui c = id_ui b /\ id_name c = id_name b
  /\ forall k, k <> name -> id_props c !! k = id_props b !! k.
Proof.
  unfold create_if_missing. destruct (IDBlock.contains name b).
  - intros [= <-]. auto.
  - destruct (convert rt ptype _) as [v|]; simpl; intros [= <-].
    repeat split. intros k Hk. simpl. now apply lookup_insert_ne.
Qed.

Lemma ensure_type_other (rt : runtime) (b : idblock) (name : string)
    (ptype : prop_type_t) :
  id_ui (ensure_type rt b name ptype) = id_ui b
  /\ id_name (ensure_type rt b name ptype) = id_name b
  /\ forall k, k <> name ->
       id_props (ensure_type rt b name ptype) !! k = id_props b !! k.
Proof.
  unfold ensure_type. destruct (convert rt ptype _); simpl; repeat split; auto.
  intros k Hk. now apply lookup_insert_ne.
Qed.

Lemma apply_ui_other (rt : runtime) (b : idblock) (name : string)
    (data : gmap string pyval) :
  id_name (apply_ui rt b name data) = id_name b
  /\ forall k, k <> name -> id_ui (apply_ui rt b name data) !! k = id_ui b !! k.
Proof.
  unfold apply_ui, IDBlock.update_ui.
  destruct (dict_truthy data), (id_props b !! name) as [v|]; auto.
  destruct (ui_accepts rt v data); simpl; auto.
  split; [reflexivity|]. intros k Hk. now apply lookup_insert_ne.
Qed.

(** A call for one name leaves the entries of the other names as they are,
    and the name of the block too. *)
Lemma idprop_apply_ui_other (rt : runtime) (b b' : idblock) (name : string)
    (ptype : prop_type_t) (dflt min_val max_val : option pyval)
    (desc subtype : option string) (soft_min soft_max : option pyval) :
  idprop_apply_ui rt b name ptype dflt min_val max_val desc subtype
    soft_min soft_max = Some b' ->
  id_name b' = id_name b
  /\ forall k, k <> name ->
       id_props b' !! k = id_props b !! k /\ id_ui b' !! k = id_ui b !! k.
Proof.
  unfold idprop_apply_ui.
  destruct (create_if_missing rt b name ptype dflt) as [c|] eqn:Hc; [|discriminate].
  simpl. intros [= <-].
  destruct (create_if_missing_other _ _ _ _ _ _ Hc) as (Hu & Hn & Hp).
  destruct (ensure_type_other rt c name ptype) as (Hu' & Hn' & Hp').
  destruct (apply_ui_other rt (ensure_type rt c name ptype) name
              (ui_data ptype dflt min_val max_val desc subtype soft_min soft_max))
    as (Hn'' & Hu'').
  split; [congruence|]. intros k Hk. split.
  - rewrite apply_ui_props, Hp' by exact Hk. now apply Hp.
  - rewrite Hu'' by exact Hk. congruence.
Qed.

(** With [overwrite_existing] off, the loop over the targets for a name
    keeps every entry that exists, and a block that has the name is left as
    it is altogether. *)
Lemma pass_preserves (rt : runtime) (props : CPG_Props) (name : string)
    (idblocks : list ref) (h : heap) (r : ref) (key : string) (v : pyval) :
  id_props (h r) !! key = Some v ->
  exists h',
    apply_to_targets rt false name (prop_values rt props) idblocks h = Continue h'
    /\ id_props (h' r) !! key = Some v
    /\ id_ui (h' r) !! key = id_ui (h r) !! key
    /\ (key = name -> h' r = h r).
Proof.
  revert h; induction idblocks as [|idb rest IH]; intros h Hv.
  - exists h. simpl. auto.
  - cbn [apply_to_targets]. rewrite andb_true_r.
    destruct (IDBlock.contains name (h idb)) eqn:Hc; [now apply IH|].
    destruct (apply_args_returns rt props (h idb) name) as [b Hb]. rewrite Hb.
    destruct (decide (idb = r)) as [->|Hne].
    + assert (Hkey : key <> name).
      { intros ->. apply contains_false in Hc. congruence. }
      destruct (idprop_apply_ui_other _ _ _ _ _ _ _ _ _ _ _ _ Hb) as [_ Hother].
      destruct (Hother key Hkey) as [Hp Hu].
      destruct (IH (<[r := b]> h)) as (h' & Hrun & Hp' & Hu' & _).
      { rewrite fn_lookup_insert. congruence. }
      exists h'. rewrite fn_lookup_insert in Hu'.
      repeat split; [exact Hrun | exact Hp' | congruence | congruence].
    + destruct (IH (<[idb := b]> h)) as (h' & Hrun & Hp' & Hu' & Hsame).
      { now rewrite fn_lookup_insert_ne. }
      exists h'. rewrite fn_lookup_insert_ne in Hu', Hsame by exact Hne.
      repeat split; assumption.
Qed.

Lemma write_names_preserves (rt : runtime) (props : CPG_Props)
    (idblocks : list ref) (names : list string) (h : heap) (r : ref)
    (key : string) (v : pyval) :
  overwrite_existing props = false ->
  id_props (h r) !! key = Some v ->
  let h' := match write_names rt props idblocks names h with
            | Continue h' => h'
            | Leave o => final_heap o
            end in
  id_props (h' r) !! key = Some v /\ id_ui (h' r) !! key = id_ui (h r) !! key.
Proof.
  intros Hover. revert h; induction names as [|name rest IH]; intros h Hv; simpl.
  - auto.
  - destruct (negb (Py.str_truthy name)); [simpl; auto|].
    rewrite Hover.
    destruct (pass_preserves rt props name idblocks h r key v Hv)
      as (h1 & -> & Hp & Hu & _).
    destruct (IH h1 Hp) as [Hp' Hu']. split; [exact Hp' | congruence].
Qed.

(** C4: with [overwrite_existing] off a block that holds the name already is
    skipped by the loop over the targets: the block comes out of it as it
    went in, value and UI data.  Over a whole run, every entry that existed
    before it keeps its value and its UI data. *)
Theorem skip_existing (rt : runtime) (ctx : context) (h : heap) (r : ref)
    (key : string) (v : pyval) :
  overwrite_existing (cpg_props ctx) = false ->
  id_props (h r) !! key = Some v ->
  (forall idblocks, exists h',
      apply_to_targets rt (overwrite_existing (cpg_props ctx)) key
        (prop_values rt (cpg_props ctx)) idblocks h = Continue h'
      /\ h' r = h r)
  /\ id_props (final_heap (execute rt ctx h) r) !! key = Some v
  /\ id_ui (final_heap (execute rt ctx h) r) !! key = id_ui (h r) !! key.
Proof.
  intros Hover Hv. split.
  - intros idblocks. rewrite Hover.
    destruct (pass_preserves rt (cpg_props ctx) key idblocks h r key v Hv)
      as (h' & Hrun & _ & _ & Hsame).
    exists h'. auto.
  - destruct (active_object ctx) as [obj|] eqn:Hobj;
      [|unfold execute; rewrite Hobj; simpl; auto].
    destruct (resolve_targets h (placement (cpg_props ctx)) obj)
      as [msg|idblocks] eqn:Hres;
      [unfold execute; rewrite Hobj, Hres; simpl; auto|].
    rewrite (execute_on_targets rt ctx obj idblocks h Hobj Hres).
    pose proof (write_names_preserves rt (cpg_props ctx) idblocks
                  (generated_names (cpg_props ctx)) h r key v Hover Hv) as Hpres.
    cbv zeta in Hpres.
    destruct (write_names _ _ _ _ _); exact Hpres.
Qed.

(** ** A pass over the targets *)

Lemma contains_none (key : string) (b : idblock) :
  id_props b !! key = None -> IDBlock.contains key b = false.
Proof.
  intros Hnone. unfold IDBlock.contains. apply bool_decide_eq_false.
  rewrite Hnone. intros [v Hv]. discriminate.
Qed.



(** ** The end-to-end example *)





(** ** Materials with the same name *)

Lemma dict_set_tagged (key : ref -> string) (x : ref) (acc : list ref) :
  (forall y, y ∈ acc -> key y = key x -> y = x) ->
  dict_set (key x) x (map (fun v => (key v, v)) acc)
  = map (fun v => (key v, v)) (if decide (x ∈ acc) then acc else (acc ++ [x])%list).
Proof.
  induction acc as [|y acc IH]; intros Hinj; [reflexivity|].
  cbn [map dict_set].
  destruct (String.eqb_spec (key y) (key x)) as [Heq|Hne].
  - assert (y = x) as -> by (apply Hinj; [left | exact Heq]).
    rewrite decide_True by left. reflexivity.
  - rewrite IH by (intros z Hz; apply Hinj; now right).
    assert (x <> y) by congruence.
    destruct (decide (x ∈ acc)) as [Hin|Hin].
    + rewrite decide_True by (now right). reflexivity.
    + rewrite decide_False by (rewrite elem_of_cons; tauto). reflexivity.
Qed.

Lemma elem_of_distinct_step (x u : ref) (acc xs : list ref) :
  u ∈ ((if decide (x ∈ acc) then acc else (acc ++ [x])%list) ++ xs)%list ->
  u ∈ (acc ++ x :: xs)%list.
Proof.
  destruct (decide (x ∈ acc));
    rewrite !elem_of_app, ?list_elem_of_singleton, ?elem_of_cons; tauto.
Qed.

Lemma foldl_dict_set_tagged (key : ref -> string) (xs acc : list ref) :
  (forall x y, x ∈ (acc ++ xs)%list -> y ∈ (acc ++ xs)%list ->
               key x = key y -> x = y) ->
  foldl (fun d x => dict_set (key x) x d) (map (fun v => (key v, v)) acc) xs
  = map (fun v => (key v, v))
      (foldl (fun acc x => if decide (x ∈ acc) then acc else (acc ++ [x])%list) acc xs).
Proof.
  revert acc; induction xs as [|x xs IH]; intros acc Hinj; [reflexivity|].
  cbn [foldl]. rewrite dict_set_tagged.
  - apply IH. intros u w Hu Hw.
    apply Hinj; now apply elem_of_distinct_step.
  - intros y Hy. apply Hinj; rewrite elem_of_app, ?elem_of_cons; tauto.
Qed.

Lemma distinct_from (acc xs : list ref) :
  NoDup acc ->
  let l := foldl (fun acc x => if decide (x ∈ acc) then acc else (acc ++ [x])%list)
             acc xs in
  NoDup l /\ forall x, x ∈ l <-> x ∈ acc \/ x ∈ xs.
Proof.
  revert acc; induction xs as [|y xs IH]; intros acc Hnd; cbn [foldl].
  - split; [exact Hnd|]. intros x. rewrite elem_of_nil. tauto.
  - destruct (decide (y ∈ acc)) as [Hin|Hin].
    + destruct (IH acc Hnd) as [Hnd' Hmem]. split; [exact Hnd'|].
      intros x. rewrite Hmem, elem_of_cons.
      split; [tauto|]. intros [?|[->|?]]; tauto.
    + destruct (IH (acc ++ [y])%list) as [Hnd' Hmem].
      { apply stdpp.list_relations.list.NoDup_app. repeat split; [exact Hnd | | apply NoDup_singleton].
        intros x Hx ->%list_elem_of_singleton. contradiction. }
      split; [exact Hnd'|].
      intros x. rewrite Hmem, elem_of_app, list_elem_of_singleton, elem_of_cons.
      tauto.
Qed.

(** [distinct] keeps every element and keeps it once. *)
Lemma distinct_spec (xs : list ref) :
  NoDup (distinct xs) /\ forall x, x ∈ distinct xs <-> x ∈ xs.
Proof.
  destruct (distinct_from [] xs (NoDup_nil_2)) as [Hnd Hmem].
  split; [exact Hnd|]. intros x. unfold distinct. rewrite Hmem, elem_of_nil. tauto.
Qed.

(** Where different materials have different names, keying them by name
    removes the repetitions and nothing else. *)
Lemma targets_distinct (h : heap) (obj : bobject) (m : ref) (mats : list ref) :
  omap id (ob_material_slots obj) = m :: mats ->
  (forall x y, x ∈ m :: mats -> y ∈ m :: mats ->
               id_name (h x) = id_name (h y) -> x = y) ->
  resolve_targets h ALL_MATERIALS obj = inr (distinct (m :: mats)).
Proof.
  intros Hslots Hinj. unfold resolve_targets. rewrite Hslots. f_equal.
  unfold dict_by, dict_values, distinct.
  pose proof (foldl_dict_set_tagged (fun r => id_name (h r)) (m :: mats) [] Hinj)
    as Hfold.
  cbn [map] in Hfold. rewrite Hfold, map_map. apply map_id.
Qed.


(** C9 fails on the code: the materials are keyed by their names, so of the
    two materials of the cube that are both called Metal only the one in
    the later slot is a target, and a run writes nothing on the other. *)
Theorem same_name_materials_merged :
  omap id (ob_material_slots cube_linked) = [2%nat; 4%nat]
  /\ id_name (bare_scene 2%nat) = id_name (bare_scene 4%nat)
  /\ resolve_targets bare_scene ALL_MATERIALS cube_linked = inr [4%nat]
  /\ id_props (final_heap (execute sample_runtime linked_context bare_scene) 2%nat)
       !! "001_flag" = None
  /\ id_props (final_heap (execute sample_runtime linked_context bare_scene) 4%nat)
       !! "001_flag" = Some (VBool true).
Proof. vm_compute. repeat split. Qed.

(** ** The theorems at work *)

Lemma auto_increment_names_witness :
  auto_increment numbered_props = true
  /\ 1 <= count numbered_props
  /\ (1 < Z.to_nat (count numbered_props))%nat
  /\ generated_names numbered_props !! 1%nat = Some "002_prop".
Proof.
  assert (H1 : auto_increment numbered_props = true) by reflexivity.
  assert (H2 : 1 <= count numbered_props) by (vm_compute; discriminate).
  assert (H3 : (1 < Z.to_nat (count numbered_props))%nat) by (vm_compute; lia).
  split; [exact H1|]. split; [exact H2|]. split; [exact H3|].
  destruct (auto_increment_names numbered_props 1 H1 H2 H3)
    as (s & Hname & _ & Htok & _).
  rewrite <- Htok in Hname. exact Hname.
Defined.

Lemma names_without_increment_witness :
  auto_increment plain_props = false
  /\ generated_names plain_props !! 1%nat = Some "a_prop_b".
Proof.
  assert (H : auto_increment plain_props = false) by reflexivity.
  split; [exact H|].
  destruct (names_without_increment sample_runtime plain_props [0%nat] bare_scene H)
    as (_ & _ & Hnames & _).
  apply (Hnames 1%nat). vm_compute. lia.
Defined.

Lemma empty_name_failure_atomic_witness :
  execute sample_runtime nameless_context bare_scene
    = Returned CANCELLED ERROR empty_name_message bare_scene
  /\ auto_increment (cpg_props nameless_context) = false.
Proof.
  assert (Hrun : execute sample_runtime nameless_context bare_scene
                 = Returned CANCELLED ERROR empty_name_message bare_scene)
    by reflexivity.
  split; [exact Hrun|].
  apply (empty_name_failure_atomic sample_runtime nameless_context
           bare_scene bare_scene Hrun).
Defined.

Lemma empty_name_aborts_witness :
  active_object nameless_context = Some cube
  /\ resolve_targets bare_scene (placement (cpg_props nameless_context)) cube
     = inr [0%nat]
  /\ execute sample_runtime nameless_context bare_scene
     = Returned CANCELLED ERROR empty_name_message bare_scene.
Proof.
  split; [reflexivity|]. split; [reflexivity|].
  apply (empty_name_aborts sample_runtime nameless_context cube [0%nat] bare_scene
           eq_refl eq_refl); try reflexivity.
  vm_compute. discriminate.
Defined.


Lemma apply_twice_same_state_witness :
  exists idb1,
    idprop_apply_ui sample_runtime (bare_scene 0%nat) "x" INT
      (Some (VInt 5)) (Some (VInt 0)) (Some (VInt 10)) None (Some "NONE") None None
    = Some idb1
    /\ idprop_apply_ui sample_runtime idb1 "x" INT
         (Some (VInt 5)) (Some (VInt 0)) (Some (VInt 10)) None (Some "NONE") None None
       = Some idb1.
Proof.
  eexists. split; [reflexivity|].
  apply (apply_twice_same_state sample_runtime (bare_scene 0%nat)).
  reflexivity.
Defined.

Lemma skip_existing_witness :
  overwrite_existing (cpg_props keep_context) = false
  /\ id_props (scene_x7 0%nat) !! "x" = Some (VInt 7)
  /\ id_props (final_heap (execute sample_runtime keep_context scene_x7) 0%nat)
       !! "x" = Some (VInt 7).
Proof.
  split; [reflexivity|]. split; [reflexivity|].
  apply (skip_existing sample_runtime keep_context scene_x7 0%nat "x" (VInt 7));
    reflexivity.
Defined.

(** ** The specification's examples *)

Example zero_pad_1 : zero_pad 1 = "001_".
Proof. reflexivity. Qed.

Example zero_pad_42 : zero_pad 42 = "042_".
Proof. reflexivity. Qed.

Example zero_pad_1000 : zero_pad 1000 = "1000_".
Proof. reflexivity. Qed.

Example names_number_first :
  generated_names numbered_props = ["001_prop"; "002_prop"; "003_prop"].
Proof. reflexivity. Qed.

Example names_number_last :
  generated_names
    (with_naming (with_batch default_props 3 BOOL OBJECT true)
       "" "prop" "" true 0 false)
  = ["prop001_"; "prop002_"; "prop003_"].
Proof. reflexivity. Qed.

Example names_from_start_998 :
  generated_names
    (with_naming (with_batch default_props 3 BOOL OBJECT true)
       "" "p" "" true 998 true)
  = ["998_p"; "999_p"; "1000_p"].
Proof. reflexivity. Qed.

Example names_plain : generated_names plain_props = ["a_prop_b"; "a_prop_b"].
Proof. reflexivity. Qed.

Example create_x_5 :
  id_props (final_heap (execute sample_runtime keep_context bare_scene) 0%nat) !! "x"
  = Some (VInt 5).
Proof. vm_compute. reflexivity. Qed.

Example create_x_ui :
  id_ui (final_heap (execute sample_runtime keep_context bare_scene) 0%nat) !! "x"
  = Some (ui_data INT (Some (VInt 5)) (Some (VInt 0)) (Some (VInt 10)) None
            (Some "NONE") None None).
Proof. vm_compute. reflexivity. Qed.

Example keep_x_7 :
  execute sample_runtime keep_context scene_x7
  = Returned FINISHED INFO "Created 1 custom propertie(s) on 1 target(s)." scene_x7.
Proof. reflexivity. Qed.

Example materials_of_cube :
  resolve_targets bare_scene ALL_MATERIALS cube = inr [2%nat; 3%nat].
Proof. reflexivity. Qed.

(** * Further properties of the code *)

(** ** [idprop_apply_ui]: creation, frame and UI data *)

Lemma convert_fallback (rt : runtime) (ptype : prop_type_t) :
  convert rt ptype (fallback ptype) = Some (fallback ptype).
Proof. destruct ptype; reflexivity. Qed.

Lemma apply_ui_name (rt : runtime) (b : idblock) (key : string)
    (data : gmap string pyval) :
  id_name (apply_ui rt b key data) = id_name b.
Proof. apply apply_ui_other. Qed.

(** The stored value and the UI data after a call that returns, in terms of
    the block the creation stage leaves. *)
Lemma idprop_apply_ui_stages (rt : runtime) (idb idb' : idblock) (key : string)
    (ptype : prop_type_t) (dflt min_val max_val : option pyval)
    (desc subtype : option string) (soft_min soft_max : option pyval) :
  idprop_apply_ui rt idb key ptype dflt min_val max_val desc subtype
    soft_min soft_max = Some idb' ->
  exists c v,
    create_if_missing rt idb key ptype dflt = Some c
    /\ id_props c !! key = Some v
    /\ id_props idb' = <[key := coerced rt ptype v]> (id_props c)
    /\ id_ui idb' =
         (let data := ui_data ptype dflt min_val max_val desc subtype
                        soft_min soft_max in
          if dict_truthy data && ui_accepts rt (coerced rt ptype v) data
          then <[key := data ∪ default ∅ (id_ui idb !! key)]> (id_ui idb)
          else id_ui idb)
    /\ id_name idb' = id_name idb.
Proof.
  unfold idprop_apply_ui.
  destruct (create_if_missing rt idb key ptype dflt) as [c|] eqn:Hc; [|discriminate].
  simpl. intros [= <-].
  destruct (create_if_missing_contains _ _ _ _ _ _ Hc) as [v Hv].
  destruct (create_if_missing_other _ _ _ _ _ _ Hc) as (Hu & Hn & _).
  destruct (ensure_type_props rt c key ptype v Hv) as (Hp & Hu' & Hn').
  fold (coerced rt ptype v) in Hp.
  assert (Hv' : id_props (ensure_type rt c key ptype) !! key
                = Some (coerced rt ptype v))
    by (rewrite Hp; apply lookup_insert_eq).
  destruct (apply_ui_spec rt _ key
              (ui_data ptype dflt min_val max_val desc subtype soft_min soft_max)
              _ Hv') as (Ha & Hb & Hd).
  cbv zeta in Ha, Hb, Hd. exists c, v.
  split; [reflexivity|]. split; [exact Hv|]. split; [congruence|].
  split; [|congruence]. cbv zeta. rewrite Hd, Hu', Hu. reflexivity.
Qed.

Lemma convert_kind (rt : runtime) (ptype : prop_type_t) (v w : pyval) :
  convert rt ptype v = Some w -> kind_of w = ptype.
Proof.
  destruct ptype, v; simpl; unfold Py.bool, Py.str;
    try (intros [= <-]; reflexivity);
    try (destruct (Py.trunc _); intros [= <-]; reflexivity);
    try (destruct (Py.float_of_int _); intros [= <-]; reflexivity);
    try (destruct (int_of_str _ _); intros [= <-]; reflexivity);
    try (destruct (float_of_str _ _); intros [= <-]; reflexivity).
Qed.

(** X1: on a block that lacks the key, lines 32-42 convert the default to
    the chosen type, or 0, 0.0, False or the empty string when no default is
    given, outside any [try].  When that conversion raises, the call raises.
    When the call returns, the entry it has created holds the converted
    default, which is of the chosen type, and the rest of the store and the
    name of the block are as before.  The four fallbacks convert to
    themselves. *)
Theorem create_missing_entry (rt : runtime) (idb : idblock) (key : string)
    (ptype : prop_type_t) (dflt min_val max_val : option pyval)
    (desc subtype : option string) (soft_min soft_max : option pyval) :
  id_props idb !! key = None ->
  let wanted := match dflt with Some d => d | None => fallback ptype end in
  (convert rt ptype wanted = None ->
   idprop_apply_ui rt idb key ptype dflt min_val max_val desc subtype
     soft_min soft_max = None)
  /\ (forall idb',
        idprop_apply_ui rt idb key ptype dflt min_val max_val desc subtype
          soft_min soft_max = Some idb' ->
        exists v,
          convert rt ptype wanted = Some v
          /\ kind_of v = ptype
          /\ id_props idb' = <[key := v]> (id_props idb)
          /\ id_name idb' = id_name idb)
  /\ (dflt = None ->
      forall idb',
        idprop_apply_ui rt idb key ptype dflt min_val max_val desc subtype
          soft_min soft_max = Some idb' ->
        id_props idb' = <[key := fallback ptype]> (id_props idb))
  /\ convert rt INT (VInt 0) = Some (VInt 0)
  /\ convert rt FLOAT (VFloat PrimFloat.zero) = Some (VFloat PrimFloat.zero)
  /\ convert rt BOOL (VBool false) = Some (VBool false)
  /\ convert rt STRING (VStr "") = Some (VStr "").
Proof.
  intros Hnone wanted.
  assert (Hcreate : create_if_missing rt idb key ptype dflt
                    = (fun v => IDBlock.setitem key v idb) <$> convert rt ptype wanted).
  { unfold create_if_missing. rewrite (contains_none _ _ Hnone). fold wanted.
    destruct (convert rt ptype wanted); reflexivity. }
  assert (Hreturns : forall idb',
            idprop_apply_ui rt idb key ptype dflt min_val max_val desc subtype
              soft_min soft_max = Some idb' ->
            exists v,
              convert rt ptype wanted = Some v
              /\ kind_of v = ptype
              /\ id_props idb' = <[key := v]> (id_props idb)
              /\ id_name idb' = id_name idb).
  { intros idb' Hrun.
    destruct (idprop_apply_ui_stages _ _ _ _ _ _ _ _ _ _ _ _ Hrun)
      as (c & v0 & Hc & Hv0 & Hp & _ & Hn).
    rewrite Hcreate in Hc.
    destruct (convert rt ptype wanted) as [v|] eqn:Hconv; [|discriminate].
    simpl in Hc. injection Hc as <-. simpl in Hv0, Hp.
    rewrite lookup_insert_eq in Hv0. injection Hv0 as <-.
    exists v. split; [reflexivity|].
    split; [exact (convert_kind rt ptype wanted v Hconv)|].
    split; [|exact Hn]. rewrite Hp. unfold coerced.
    rewrite (convert_idem rt ptype wanted v Hconv). apply insert_insert_eq. }
  split; [|split; [exact Hreturns|split; [|repeat split]]].
  - intros Hconv. unfold idprop_apply_ui. rewrite Hcreate, Hconv. reflexivity.
  - intros Hdflt idb' Hrun.
    destruct (Hreturns idb' Hrun) as (v & Hconv & _ & Hprops & _).
    subst dflt. unfold wanted in Hconv.
    rewrite convert_fallback in Hconv. injection Hconv as <-. exact Hprops.
Qed.

Lemma create_missing_entry_witness :
  exists idb',
    idprop_apply_ui sample_runtime (bare_scene 0%nat) "x" FLOAT None None None
      None (Some "NONE") None None = Some idb'
    /\ id_props idb' = <["x" := VFloat 0%float]> (id_props (bare_scene 0%nat)).
Proof.
  eexists. split; [reflexivity|].
  destruct (create_missing_entry sample_runtime (bare_scene 0%nat) "x" FLOAT
              None None None None (Some "NONE") None None eq_refl)
    as (_ & Hreturns & _).
  destruct (Hreturns _ eq_refl) as (v & Hconv & _ & Hprops & _).
  injection Hconv as <-. exact Hprops.
Defined.

(** X2: a call of [idprop_apply_ui] that returns leaves the key in the
    store, and touches nothing but the entry of that key: the values and the
    UI data under every other key are what they were, and so is the name of
    the block. *)
Theorem apply_touches_one_entry (rt : runtime) (idb idb' : idblock) (key : string)
    (ptype : prop_type_t) (dflt min_val max_val : option pyval)
    (desc subtype : option string) (soft_min soft_max : option pyval) :
  idprop_apply_ui rt idb key ptype dflt min_val max_val desc subtype
    soft_min soft_max = Some idb' ->
  is_Some (id_props idb' !! key)
  /\ id_name idb' = id_name idb
  /\ forall k, k <> key ->
       id_props idb' !! k = id_props idb !! k /\ id_ui idb' !! k = id_ui idb !! k.
Proof.
  intros Hrun.
  destruct (idprop_apply_ui_stages _ _ _ _ _ _ _ _ _ _ _ _ Hrun)
    as (c & v & _ & _ & Hp & _ & _).
  split; [rewrite Hp, lookup_insert_eq; now eexists|].
  exact (idprop_apply_ui_other _ _ _ _ _ _ _ _ _ _ _ _ Hrun).
Qed.

Lemma apply_touches_one_entry_witness :
  exists idb',
    idprop_apply_ui sample_runtime block_x7 "y" BOOL (Some (VBool true)) None None
      None (Some "NONE") None None = Some idb'
    /\ id_props idb' !! "x" = Some (VInt 7)
    /\ id_ui idb' !! "x" = None.
Proof.
  eexists. split; [reflexivity|].
  destruct (apply_touches_one_entry sample_runtime block_x7 _ "y" BOOL
              (Some (VBool true)) None None None (Some "NONE") None None eq_refl)
    as (_ & _ & Hother).
  destruct (Hother "x") as [Hp Hu]; [discriminate|].
  split; [rewrite Hp | rewrite Hu]; reflexivity.
Defined.

(** The entry and the UI data after a call that returns. *)
Lemma ui_applied_or_left_aux (rt : runtime) (idb idb' : idblock) (key : string)
    (ptype : prop_type_t) (dflt min_val max_val : option pyval)
    (desc subtype : option string) (soft_min soft_max : option pyval) :
  idprop_apply_ui rt idb key ptype dflt min_val max_val desc subtype
    soft_min soft_max = Some idb' ->
  exists v',
    id_props idb' !! key = Some v'
    /\ id_ui idb' =
         (if dict_truthy (ui_data ptype dflt min_val max_val desc subtype
                            soft_min soft_max)
             && ui_accepts rt v' (ui_data ptype dflt min_val max_val desc subtype
                                    soft_min soft_max)
          then <[key := ui_data ptype dflt min_val max_val desc subtype
                          soft_min soft_max ∪ default ∅ (id_ui idb !! key)]>
                 (id_ui idb)
          else id_ui idb).
Proof.
  intros Hrun.
  destruct (idprop_apply_ui_stages _ _ _ _ _ _ _ _ _ _ _ _ Hrun)
    as (c & v & _ & _ & Hp & Hu & _).
  exists (coerced rt ptype v).
  split; [rewrite Hp; apply lookup_insert_eq | exact Hu].
Qed.

(** X4: when the host takes the update, every UI field of the entry is
    either the one the call gives or the one the host had: the description
    when one is given, for the numeric types the bounds, soft bounds,
    default and subtype that are given, for booleans and strings the default
    when given.  A field that is not given, or that the type does not take
    (a bound or a subtype on a boolean or a string), keeps its value. *)
Theorem ui_fields_merged (rt : runtime) (idb idb' : idblock) (key : string)
    (ptype : prop_type_t) (dflt min_val max_val : option pyval)
    (desc subtype : option string) (soft_min soft_max : option pyval)
    (v' : pyval) :
  idprop_apply_ui rt idb key ptype dflt min_val max_val desc subtype
    soft_min soft_max = Some idb' ->
  id_props idb' !! key = Some v' ->
  ui_accepts rt v'
    (ui_data ptype dflt min_val max_val desc subtype soft_min soft_max) = true ->
  forall f,
    default ∅ (id_ui idb' !! key) !! f =
      match given_field ptype dflt min_val max_val desc subtype soft_min soft_max f with
      | Some x => Some x
      | None => default ∅ (id_ui idb !! key) !! f
      end.
Proof.
  intros Hrun Hv' Hacc f.
  destruct (ui_applied_or_left_aux rt idb idb' key ptype dflt min_val max_val
              desc subtype soft_min soft_max Hrun) as (w & Hw & Hu).
  assert (w = v') as -> by congruence.
  rewrite <- ui_data_lookup.
  rewrite Hu, Hacc, andb_true_r.
  destruct (dict_truthy _) eqn:Hdata.
  - rewrite lookup_insert_eq. simpl. rewrite lookup_union.
    destruct (ui_data _ _ _ _ _ _ _ _ !! f), (default ∅ (id_ui idb !! key) !! f);
      reflexivity.
  - apply dict_truthy_empty in Hdata. rewrite Hdata, lookup_empty. reflexivity.
Qed.

Lemma ui_fields_merged_witness :
  exists idb',
    idprop_apply_ui sample_runtime (bare_scene 0%nat) "x" INT (Some (VInt 5))
      (Some (VInt 0)) (Some (VInt 10)) None (Some "NONE") None None = Some idb'
    /\ default ∅ (id_ui idb' !! "x") !! "max" = Some (VInt 10)
    /\ default ∅ (id_ui idb' !! "x") !! "soft_max" = None.
Proof.
  eexists. split; [reflexivity|].
  split.
  - etrans;
      [apply (ui_fields_merged sample_runtime (bare_scene 0%nat) _ "x" INT
                (Some (VInt 5)) (Some (VInt 0)) (Some (VInt 10)) None
                (Some "NONE") None None (VInt 5)); reflexivity
      | reflexivity].
  - etrans;
      [apply (ui_fields_merged sample_runtime (bare_scene 0%nat) _ "x" INT
                (Some (VInt 5)) (Some (VInt 0)) (Some (VInt 10)) None
                (Some "NONE") None None (VInt 5)); reflexivity
      | reflexivity].
Defined.

(** ** What a pass and a run leave in the heap *)

Lemma convert_form_default (rt : runtime) (props : CPG_Props) :
  convert rt (prop_type props) (form_default props) = Some (form_default props).
Proof. unfold form_default. destruct (prop_type props); reflexivity. Qed.

Lemma coerced_idem (rt : runtime) (ptype : prop_type_t) (v : pyval) :
  coerced rt ptype (coerced rt ptype v) = coerced rt ptype v.
Proof.
  unfold coerced at 2 3. destruct (convert rt ptype v) as [v'|] eqn:Hconv.
  - unfold coerced. now rewrite (convert_idem rt ptype v v' Hconv).
  - unfold coerced. now rewrite Hconv.
Qed.

Lemma value_after_idem (rt : runtime) (props : CPG_Props) (old : option pyval) :
  value_after rt props (Some (value_after rt props old)) = value_after rt props old.
Proof.
  unfold value_after. destruct (overwrite_existing props), old as [v|];
    try reflexivity.
  - apply coerced_idem.
  - unfold coerced. now rewrite convert_form_default.
Qed.

Lemma ui_after_idem (rt : runtime) (props : CPG_Props) (old : option pyval)
    (old_ui : option (gmap string pyval)) :
  ui_after rt props (Some (value_after rt props old)) (ui_after rt props old old_ui)
  = ui_after rt props old old_ui.
Proof.
  unfold ui_after at 1. rewrite value_after_idem.
  destruct (overwrite_existing props) eqn:Hover; [|reflexivity].
  assert (Hshape : ui_after rt props old old_ui =
            if ui_accepts rt (value_after rt props old) (run_data rt props)
            then Some (run_data rt props ∪ default ∅ old_ui) else old_ui).
  { unfold ui_after. rewrite Hover. destruct old; reflexivity. }
  rewrite Hshape.
  destruct (ui_accepts rt _ _); [|reflexivity].
  simpl. now rewrite (assoc_L (∪)), (idemp_L (∪)).
Qed.

Lemma run_data_truthy (rt : runtime) (props : CPG_Props) :
  dict_truthy (run_data rt props) = true.
Proof.
  destruct (dict_truthy (run_data rt props)) eqn:Hdata; [reflexivity|].
  apply dict_truthy_empty in Hdata.
  assert (Hdef : run_data rt props !! "default" = Some (form_default props)).
  { unfold run_data. rewrite ui_data_lookup, prop_values_ptype, prop_values_default.
    unfold given_field, form_default. destruct (prop_type props); reflexivity. }
  rewrite Hdata, lookup_empty in Hdef. discriminate.
Qed.

(** What the body of the loop over the targets does to one block. *)
Lemma visit_block (rt : runtime) (props : CPG_Props) (b : idblock) (name : string) :
  exists b1,
    (if IDBlock.contains name b && negb (overwrite_existing props)
     then Some b
     else apply_args rt b name (prop_values rt props)) = Some b1
    /\ id_name b1 = id_name b
    /\ (forall k, k <> name ->
          id_props b1 !! k = id_props b !! k /\ id_ui b1 !! k = id_ui b !! k)
    /\ id_props b1 !! name = Some (value_after rt props (id_props b !! name))
    /\ id_ui b1 !! name
       = ui_after rt props (id_props b !! name) (id_ui b !! name).
Proof.
  destruct (IDBlock.contains name b && negb (overwrite_existing props)) eqn:Hskip.
  - apply andb_true_iff in Hskip as [Hc Hover]. apply negb_true_iff in Hover.
    exists b. split; [reflexivity|]. split; [reflexivity|]. split; [auto|].
    unfold IDBlock.contains in Hc. apply bool_decide_eq_true in Hc as [v Hv].
    unfold value_after, ui_after. rewrite Hv, Hover. auto.
  - destruct (apply_args_returns rt props b name) as [b1 Hb1].
    exists b1. split; [exact Hb1|].
    pose proof Hb1 as Hrun. unfold apply_args in Hrun.
    destruct (idprop_apply_ui_other _ _ _ _ _ _ _ _ _ _ _ _ Hrun) as [Hn Hother].
    split; [exact Hn|]. split; [exact Hother|].
    destruct (idprop_apply_ui_stages _ _ _ _ _ _ _ _ _ _ _ _ Hrun)
      as (c & v & Hc & Hv & Hp & Hu & _).
    cbv zeta in Hu. fold (run_data rt props) in Hu.
    rewrite run_data_truthy, prop_values_ptype in Hu. simpl in Hu.
    rewrite prop_values_ptype in Hp.
    assert (Hval : coerced rt (prop_type props) v
                   = value_after rt props (id_props b !! name)
                   /\ (ui_after rt props (id_props b !! name) (id_ui b !! name)
                       = if ui_accepts rt (coerced rt (prop_type props) v)
                              (run_data rt props)
                         then Some (run_data rt props ∪ default ∅ (id_ui b !! name))
                         else id_ui b !! name)).
    { unfold create_if_missing in Hc.
      destruct (IDBlock.contains name b) eqn:Hcont.
      - injection Hc as <-. simpl in Hskip. apply negb_false_iff in Hskip.
        unfold value_after, ui_after. rewrite Hv, Hskip.
        split; [reflexivity|]. unfold value_after. rewrite Hskip. reflexivity.
      - apply contains_false in Hcont.
        rewrite prop_values_default, prop_values_ptype in Hc.
        fold (form_default props) in Hc.
        rewrite convert_form_default in Hc. simpl in Hc. injection Hc as <-.
        simpl in Hv. rewrite lookup_insert_eq in Hv. injection Hv as <-.
        unfold value_after, ui_after. rewrite Hcont.
        unfold coerced. rewrite convert_form_default.
        split; reflexivity. }
    destruct Hval as [Hval Hshape]. split.
    + rewrite Hp, lookup_insert_eq. now rewrite Hval.
    + rewrite Hu, Hshape.
      destruct (ui_accepts rt _ _); [apply lookup_insert_eq | reflexivity].
Qed.

(** The loop over the targets for one name, in full: which blocks and which
    entries it leaves alone, and what it leaves under the name on every
    target. *)
Lemma pass_entries (rt : runtime) (props : CPG_Props) (name : string)
    (idblocks : list ref) (h : heap) :
  exists h',
    apply_to_targets rt (overwrite_existing props) name (prop_values rt props)
      idblocks h = Continue h'
    /\ (forall r, id_name (h' r) = id_name (h r))
    /\ (forall r, r ∉ idblocks -> h' r = h r)
    /\ (forall r k, k <> name ->
          id_props (h' r) !! k = id_props (h r) !! k
          /\ id_ui (h' r) !! k = id_ui (h r) !! k)
    /\ (forall r, r ∈ idblocks ->
          id_props (h' r) !! name
          = Some (value_after rt props (id_props (h r) !! name))
          /\ id_ui (h' r) !! name
             = ui_after rt props (id_props (h r) !! name) (id_ui (h r) !! name)).
Proof.
  revert h; induction idblocks as [|idb rest IH]; intros h.
  - exists h. simpl. split; [reflexivity|]. do 3 (split; [auto|]).
    intros r Hr. now apply elem_of_nil in Hr.
  - destruct (visit_block rt props (h idb) name)
      as (b1 & Hvisit & Hn1 & Hother1 & Hp1 & Hu1).
    assert (Hstep : exists h1,
        apply_to_targets rt (overwrite_existing props) name (prop_values rt props)
          (idb :: rest) h
        = apply_to_targets rt (overwrite_existing props) name
            (prop_values rt props) rest h1
        /\ h1 idb = b1 /\ forall r, r <> idb -> h1 r = h r).
    { cbn [apply_to_targets].
      destruct (IDBlock.contains name (h idb) && negb (overwrite_existing props)).
      - injection Hvisit as <-. exists h. auto.
      - rewrite Hvisit. exists (<[idb := b1]> h).
        split; [reflexivity|]. split; [apply fn_lookup_insert|].
        intros r Hr. now apply fn_lookup_insert_ne. }
    destruct Hstep as (h1 & -> & Hhead & Hrest).
    destruct (IH h1) as (h' & Hrun & Hn & Hsame & Hother & Hin).
    assert (Hh1 : forall r, id_name (h1 r) = id_name (h r)
                  /\ forall k, k <> name ->
                       id_props (h1 r) !! k = id_props (h r) !! k
                       /\ id_ui (h1 r) !! k = id_ui (h r) !! k).
    { intros r. destruct (decide (r = idb)) as [->|Hne].
      - rewrite Hhead. auto.
      - rewrite (Hrest r Hne). auto. }
    exists h'. split; [exact Hrun|]. split; [|split; [|split]].
    + intros r. rewrite Hn. apply Hh1.
    + intros r Hr. apply not_elem_of_cons in Hr as [Hne Hr].
      rewrite Hsame by exact Hr. now apply Hrest.
    + intros r k Hk. destruct (Hother r k Hk) as [-> ->]. now apply Hh1.
    + intros r Hr. destruct (decide (r = idb)) as [->|Hne].
      * destruct (decide (idb ∈ rest)) as [Hmem|Hmem].
        -- destruct (Hin idb Hmem) as [-> ->].
           rewrite Hhead, Hp1, Hu1.
           split; [now rewrite value_after_idem | apply ui_after_idem].
        -- rewrite (Hsame idb Hmem), Hhead. auto.
      * apply elem_of_cons in Hr as [Hr|Hr]; [contradiction|].
        destruct (Hin r Hr) as [-> ->]. now rewrite (Hrest r Hne).
Qed.

(** The same for the names of a batch written one after the other. *)
Lemma names_entries (rt : runtime) (props : CPG_Props) (idblocks : list ref)
    (names : list string) (h h' : heap) :
  write_names rt props idblocks names h = Continue h' ->
  (forall r, id_name (h' r) = id_name (h r))
  /\ (forall r, r ∉ idblocks -> h' r = h r)
  /\ (forall r k, k ∉ names ->
        id_props (h' r) !! k = id_props (h r) !! k
        /\ id_ui (h' r) !! k = id_ui (h r) !! k)
  /\ (forall r k, r ∈ idblocks -> k ∈ names ->
        id_props (h' r) !! k = Some (value_after rt props (id_props (h r) !! k))
        /\ id_ui (h' r) !! k
           = ui_after rt props (id_props (h r) !! k) (id_ui (h r) !! k)).
Proof.
  revert h; induction names as [|name rest IH]; intros h; cbn [write_names].
  - intros [= <-]. do 3 (split; [auto|]).
    intros r k _ Hk. now apply elem_of_nil in Hk.
  - destruct (negb (Py.str_truthy name)); [discriminate|].
    destruct (pass_entries rt props name idblocks h)
      as (h1 & -> & Hn1 & Hsame1 & Hother1 & Hin1).
    intros Hrest. destruct (IH h1 Hrest) as (Hn & Hsame & Hother & Hin).
    split; [|split; [|split]].
    + intros r. now rewrite Hn.
    + intros r Hr. rewrite Hsame by exact Hr. now apply Hsame1.
    + intros r k Hk. apply not_elem_of_cons in Hk as [Hne Hk].
      destruct (Hother r k Hk) as [-> ->]. now apply Hother1.
    + intros r k Hr Hk. destruct (decide (k = name)) as [->|Hne].
      * destruct (Hin1 r Hr) as [Hp1 Hu1].
        destruct (decide (name ∈ rest)) as [Hmem|Hmem].
        -- destruct (Hin r name Hr Hmem) as [-> ->]. rewrite Hp1, Hu1.
           split; [now rewrite value_after_idem | apply ui_after_idem].
        -- destruct (Hother r name Hmem) as [-> ->]. auto.
      * apply elem_of_cons in Hk as [Hk|Hk]; [contradiction|].
        destruct (Hin r k Hr Hk) as [-> ->].
        destruct (Hother1 r k Hne) as [-> ->]. auto.
Qed.

(** The outcome of [execute] once the targets are resolved: cancelled on the
    first name when that name is empty, finished otherwise. *)
Lemma execute_resolved (rt : runtime) (ctx : context) (obj : bobject)
    (idblocks : list ref) (h : heap) :
  active_object ctx = Some obj ->
  resolve_targets h (placement (cpg_props ctx)) obj = inr idblocks ->
  let props := cpg_props ctx in
  if (0 <? count props)
     && negb (Py.str_truthy (prop_name props (start_index props)))
  then execute rt ctx h = Returned CANCELLED ERROR empty_name_message h
  else exists h',
         write_names rt props idblocks (generated_names props) h = Continue h'
         /\ execute rt ctx h
            = Returned FINISHED INFO (created_message props idblocks) h'.
Proof.
  intros Hobj Hres props.
  rewrite (execute_on_targets rt ctx obj idblocks h Hobj Hres). fold props.
  unfold generated_names.
  destruct (Z.ltb_spec 0 (count props)) as [Hpos|Hneg]; cbn [andb].
  - destruct (Z.to_nat (count props)) as [|n] eqn:Hn; [lia|].
    destruct (Py.str_truthy (prop_name props (start_index props))) eqn:Hname;
      cbn [negb].
    + destruct (write_names_continues rt props idblocks
                  (names_from props (S n) (start_index props)) h) as [h' Hh'].
      { apply Forall_forall. intros name Hin.
        apply list_elem_of_In, list_elem_of_lookup in Hin as [j Hj].
        assert (j < S n)%nat
          by (apply lookup_lt_Some in Hj; now rewrite length_names_from in Hj).
        rewrite lookup_names_from in Hj by assumption. injection Hj as <-.
        rewrite prop_name_truthy in Hname |- *. exact Hname. }
      exists h'. rewrite Hh'. auto.
    + cbn [names_from write_names]. rewrite Hname. reflexivity.
  - replace (Z.to_nat (count props)) with 0%nat by lia.
    exists h. simpl. auto.
Qed.

(** ** The outcomes of [execute] *)

(** X5: the outcome of [execute] is decided by four tests in order.
    Without an active object it cancels with the error of line 208; when the
    placement does not resolve it cancels with the error of line 218, 224 or
    230, each for its own cause.  With targets and a count of at least one,
    it cancels with the empty-name error exactly when prefix, base name and
    suffix are all empty and numbering is off.  In these cases it returns
    the heap it was given.  In every other case, what it returns when it
    returns is the finished status with the information report
    [Created <count> custom propertie(s) on <number of targets>
    target(s).]. *)
Theorem execute_outcome_cases (rt : runtime) (ctx : context) (h : heap) :
  let props := cpg_props ctx in
  match active_object ctx with
  | None =>
      execute rt ctx h = Returned CANCELLED ERROR "No active object selected." h
  | Some obj =>
      match resolve_targets h (placement props) obj with
      | inl message =>
          execute rt ctx h = Returned CANCELLED ERROR message h
          /\ ((placement props = DATA /\ ob_data obj = None
               /\ message = "Selected object has no Data block.")
              \/ (placement props = ACTIVE_MATERIAL
                  /\ ob_active_material obj = None
                  /\ message = "Active material not found on object.")
              \/ (placement props = ALL_MATERIALS
                  /\ (forall slot, slot ∈ ob_material_slots obj -> slot = None)
                  /\ message = "No materials on object."))
      | inr idblocks =>
          if (0 <? count props)
             && negb (Py.str_truthy (free_prefix props)
                      || Py.str_truthy (base_name props)
                      || Py.str_truthy (free_suffix props)
                      || auto_increment props)
          then execute rt ctx h
               = Returned CANCELLED ERROR
                   "Resulting property name is empty. Please set Name/Prefix/Suffix."
                   h
          else forall st level message h',
                 execute rt ctx h = Returned st level message h' ->
                 st = FINISHED /\ level = INFO
                 /\ message =
                      "Created " +:+ Py.str_of_int (count props)
                      +:+ " custom propertie(s) on "
                      +:+ Py.str_of_int (Z.of_nat (length idblocks))
                      +:+ " target(s)."
      end
  end.
Proof.
  intros props.
  destruct (active_object ctx) as [obj|] eqn:Hobj;
    [|unfold execute; now rewrite Hobj].
  destruct (resolve_targets h (placement props) obj) as [msg|idblocks] eqn:Hres.
  - split; [unfold execute; fold props; now rewrite Hobj, Hres|].
    unfold resolve_targets in Hres. destruct (placement props).
    + discriminate.
    + destruct (ob_data obj); [discriminate|]. injection Hres as <-. left. auto.
    + destruct (ob_active_material obj); [discriminate|]. injection Hres as <-.
      right. left. auto.
    + destruct (omap id (ob_material_slots obj)) as [|m mats] eqn:Hmats;
        [|discriminate].
      injection Hres as <-. right. right.
      split; [reflexivity|]. split; [|reflexivity].
      intros [m|] Hin; [|reflexivity].
      assert (Hm : m ∈ omap id (ob_material_slots obj))
        by (apply list_elem_of_omap; now exists (Some m)).
      rewrite Hmats in Hm. now apply elem_of_nil in Hm.
    + discriminate.
  - pose proof (execute_resolved rt ctx obj idblocks h Hobj Hres) as Hcases.
    cbv zeta in Hcases. fold props in Hcases.
    rewrite prop_name_truthy in Hcases.
    destruct ((0 <? count props) && negb _); [exact Hcases|].
    destruct Hcases as (h1 & _ & Hrun).
    intros st level message h' Hret. rewrite Hrun in Hret.
    injection Hret as <- <- <- <-. auto.
Qed.

Lemma execute_outcome_cases_witness :
  (exists h',
     execute sample_runtime flag_context bare_scene
     = Returned FINISHED INFO "Created 2 custom propertie(s) on 2 target(s)." h')
  /\ execute sample_runtime nameless_context bare_scene
     = Returned CANCELLED ERROR
         "Resulting property name is empty. Please set Name/Prefix/Suffix."
         bare_scene.
Proof.
  split.
  - destruct (execute sample_runtime flag_context bare_scene)
      as [st level message h1|h1] eqn:Hrun; [|vm_compute in Hrun; discriminate].
    destruct (execute_outcome_cases sample_runtime flag_context bare_scene
                st level message h1 Hrun) as (-> & -> & ->).
    exists h1. reflexivity.
  - exact (execute_outcome_cases sample_runtime nameless_context bare_scene).
Defined.

Lemma execute_returns (rt : runtime) (ctx : context) (h : heap) :
  (exists level message,
      execute rt ctx h = Returned CANCELLED level message h /\ level = ERROR)
  \/ (exists obj idblocks h',
         active_object ctx = Some obj
         /\ resolve_targets h (placement (cpg_props ctx)) obj = inr idblocks
         /\ write_names rt (cpg_props ctx) idblocks
              (generated_names (cpg_props ctx)) h = Continue h'
         /\ execute rt ctx h
            = Returned FINISHED INFO (created_message (cpg_props ctx) idblocks) h').
Proof.
  destruct (active_object ctx) as [obj|] eqn:Hobj;
    [|left; unfold execute; rewrite Hobj; eauto].
  destruct (resolve_targets h (placement (cpg_props ctx)) obj)
    as [msg|idblocks] eqn:Hres;
    [left; unfold execute; rewrite Hobj, Hres; eauto|].
  pose proof (execute_resolved rt ctx obj idblocks h Hobj Hres) as Hcases.
  cbv zeta in Hcases.
  destruct ((0 <? count (cpg_props ctx)) && negb _); [left; eauto|].
  destruct Hcases as (h' & Hnames & Hrun). right. exists obj, idblocks, h'. auto.
Qed.

(** X6: whatever makes [execute] cancel, it has written nothing by then:
    the heap of a cancelled run is the heap it started from, and its report
    is an error; the report of a finished run is an information. *)
Theorem cancelled_run_changes_nothing (rt : runtime) (ctx : context) (h h' : heap)
    (st : op_status) (level : report_level) (message : string) :
  execute rt ctx h = Returned st level message h' ->
  match st with
  | CANCELLED => h' = h /\ level = ERROR
  | FINISHED => level = INFO
  end.
Proof.
  intros Hrun.
  destruct (execute_returns rt ctx h)
    as [(lvl & msg & Hc & ->)|(obj & idblocks & h1 & _ & _ & _ & Hf)].
  - rewrite Hc in Hrun. injection Hrun as <- <- <- <-. auto.
  - rewrite Hf in Hrun. injection Hrun as <- <- <- <-. reflexivity.
Qed.

Lemma cancelled_run_changes_nothing_witness :
  execute sample_runtime
    {| cpg_props := with_batch default_props 1 INT DATA true;
       active_object :=
         Some {| ob_self := 0%nat; ob_data := None; ob_active_material := None;
                 ob_material_slots := [] |} |}
    bare_scene
  = Returned CANCELLED ERROR "Selected object has no Data block." bare_scene
  /\ (bare_scene = bare_scene /\ ERROR = ERROR).
Proof.
  split; [reflexivity|].
  apply (cancelled_run_changes_nothing sample_runtime
           {| cpg_props := with_batch default_props 1 INT DATA true;
              active_object :=
                Some {| ob_self := 0%nat; ob_data := None;
                        ob_active_material := None; ob_material_slots := [] |} |}
           bare_scene bare_scene CANCELLED ERROR
           "Selected object has no Data block.").
  reflexivity.
Defined.

(** X7: a run changes no block that is not one of the resolved targets, no
    entry (value or UI data) whose key is not one of the generated names,
    and the name of no block; and it removes no entry. *)
Theorem run_frame (rt : runtime) (ctx : context) (h : heap) :
  let props := cpg_props ctx in
  let h' := final_heap (execute rt ctx h) in
  (forall r, id_name (h' r) = id_name (h r))
  /\ (forall r k, k ∉ generated_names props ->
        id_props (h' r) !! k = id_props (h r) !! k
        /\ id_ui (h' r) !! k = id_ui (h r) !! k)
  /\ (forall obj idblocks r,
        active_object ctx = Some obj ->
        resolve_targets h (placement props) obj = inr idblocks ->
        r ∉ idblocks -> h' r = h r)
  /\ (forall r k, is_Some (id_props (h r) !! k) -> is_Some (id_props (h' r) !! k)).
Proof.
  intros props h'. unfold h'.
  destruct (execute_returns rt ctx h)
    as [(lvl & msg & -> & _)|(obj & idblocks & h1 & Hobj & Hres & Hnames & ->)];
    simpl.
  - auto.
  - destruct (names_entries rt props idblocks _ h h1 Hnames)
      as (Hn & Hsame & Hother & Hin).
    split; [exact Hn|]. split; [exact Hother|]. split.
    + intros obj' idblocks' r Hobj' Hres' Hr.
      assert (idblocks' = idblocks) as -> by (fold props in Hres; congruence).
      now apply Hsame.
    + intros r k Hk.
      destruct (decide (r ∈ idblocks)) as [Hr|Hr]; [|now rewrite Hsame].
      destruct (decide (k ∈ generated_names props)) as [Hgen|Hgen].
      * destruct (Hin r k Hr Hgen) as [-> _]. now eexists.
      * destruct (Hother r k Hgen) as [-> _]. exact Hk.
Qed.

(** X8: after a finished run every target holds every generated name.  The
    value under it is the default of the form where the name was new, the
    conversion of the old value to the chosen type where it existed and
    [overwrite_existing] is set (the old value itself when the conversion
    raises), and the old value untouched where it existed and
    [overwrite_existing] is off; the UI data follows in the same way. *)
Theorem run_entries (rt : runtime) (ctx : context) (obj : bobject)
    (idblocks : list ref) (h h' : heap) (level : report_level) (message : string) :
  active_object ctx = Some obj ->
  resolve_targets h (placement (cpg_props ctx)) obj = inr idblocks ->
  execute rt ctx h = Returned FINISHED level message h' ->
  let props := cpg_props ctx in
  forall r k, r ∈ idblocks -> k ∈ generated_names props ->
    id_props (h' r) !! k = Some (value_after rt props (id_props (h r) !! k))
    /\ id_ui (h' r) !! k
       = ui_after rt props (id_props (h r) !! k) (id_ui (h r) !! k).
Proof.
  intros Hobj Hres Hrun props r k Hr Hk.
  destruct (execute_returns rt ctx h)
    as [(lvl & msg & Hc & _)|(obj' & idblocks' & h1 & Hobj' & Hres' & Hnames & Hf)].
  - rewrite Hc in Hrun. discriminate.
  - rewrite Hf in Hrun. injection Hrun as _ _ <-.
    assert (idblocks' = idblocks) as -> by congruence.
    destruct (names_entries rt props idblocks _ h h1 Hnames) as (_ & _ & _ & Hin).
    now apply Hin.
Qed.

Lemma run_entries_witness :
  exists h',
    execute sample_runtime keep_context scene_x7
    = Returned FINISHED INFO "Created 1 custom propertie(s) on 1 target(s)." h'
    /\ id_props (h' 0%nat) !! "x" = Some (VInt 7).
Proof.
  eexists. split; [reflexivity|].
  destruct (run_entries sample_runtime keep_context cube [0%nat] scene_x7 _
              INFO "Created 1 custom propertie(s) on 1 target(s)."
              eq_refl eq_refl eq_refl 0%nat "x") as [Hp _].
  - apply list_elem_of_singleton. reflexivity.
  - apply list_elem_of_singleton. reflexivity.
  - rewrite Hp. reflexivity.
Defined.

(** ** Numbered names are distinct *)

Lemma append_inj_length (s t u u' : string) :
  String.length s = String.length t -> s +:+ u = t +:+ u' -> s = t /\ u = u'.
Proof.
  revert t; induction s as [|c s IH]; intros [|d t] Hlen Heq;
    try discriminate Hlen.
  - auto.
  - injection Hlen as Hlen.
    change (String c (s +:+ u) = String d (t +:+ u')) in Heq.
    injection Heq as -> Heq.
    destruct (IH t Hlen Heq) as [-> ->]. auto.
Qed.

Lemma append_cancel_l (p s t : string) : p +:+ s = p +:+ t -> s = t.
Proof. intros Heq. now apply (append_inj_length p p s t). Qed.

Lemma append_cancel_r (s t u : string) : s +:+ u = t +:+ u -> s = t.
Proof.
  intros Heq. apply (append_inj_length s t u u); [|exact Heq].
  apply (f_equal String.length) in Heq. rewrite !length_append in Heq. lia.
Qed.

Lemma zero_pad_inj (a b : Z) :
  0 <= a -> 0 <= b -> zero_pad a = zero_pad b -> a = b.
Proof.
  intros Ha Hb Heq.
  destruct (zero_pad_digits a Ha) as (sa & Hsa & Hva & _).
  destruct (zero_pad_digits b Hb) as (sb & Hsb & Hvb & _).
  rewrite Hsa, Hsb in Heq. apply append_cancel_r in Heq. subst sb.
  rewrite Hva in Hvb. injection Hvb as Hvb. lia.
Qed.

Lemma prop_name_inj (props : CPG_Props) (a b : Z) :
  auto_increment props = true -> 0 <= a -> 0 <= b ->
  prop_name props a = prop_name props b -> a = b.
Proof.
  intros Hauto Ha Hb. rewrite !prop_name_append. cbv zeta. rewrite Hauto.
  destruct (increment_as_prefix props); intros Heq.
  - apply append_cancel_l, append_cancel_r in Heq. now apply zero_pad_inj.
  - apply append_cancel_l, append_cancel_l, append_cancel_r in Heq.
    now apply zero_pad_inj.
Qed.

(** X9: with numbering on, the names of a batch are pairwise different, and
    there are as many as the count asks for: no name is generated twice. *)
Theorem numbered_names_distinct (props : CPG_Props) :
  auto_increment props = true ->
  NoDup (generated_names props)
  /\ length (generated_names props) = Z.to_nat (count props).
Proof.
  intros Hauto. unfold generated_names. split; [|apply length_names_from].
  apply NoDup_alt. intros i j name Hi Hj.
  assert (Hli : (i < Z.to_nat (count props))%nat)
    by (apply lookup_lt_Some in Hi; now rewrite length_names_from in Hi).
  assert (Hlj : (j < Z.to_nat (count props))%nat)
    by (apply lookup_lt_Some in Hj; now rewrite length_names_from in Hj).
  rewrite lookup_names_from in Hi, Hj by assumption.
  pose proof (start_index_pos props) as Hstart.
  assert (start_index props + Z.of_nat i = start_index props + Z.of_nat j).
  { apply (prop_name_inj props); [exact Hauto | lia | lia | congruence]. }
  lia.
Qed.

Lemma numbered_names_distinct_witness :
  auto_increment numbered_props = true
  /\ NoDup (generated_names numbered_props)
  /\ length (generated_names numbered_props) = 3%nat.
Proof.
  split; [reflexivity|].
  apply (numbered_names_distinct numbered_props). reflexivity.
Defined.

(** ** The resolved targets *)

Lemma dict_set_keys {V : Type} (k : string) (v : V) (d : list (string * V)) :
  map fst (dict_set k v d)
  = if decide (k ∈ map fst d) then map fst d else (map fst d ++ [k])%list.
Proof.
  induction d as [|[k' v'] d IH]; cbn [dict_set map fst].
  - rewrite decide_False by apply not_elem_of_nil. reflexivity.
  - destruct (String.eqb_spec k' k) as [->|Hne]; cbn [map fst].
    + rewrite decide_True by left. reflexivity.
    + rewrite IH. destruct (decide (k ∈ map fst d)) as [Hin|Hin].
      * rewrite decide_True by (now right). reflexivity.
      * rewrite decide_False; [reflexivity|].
        rewrite elem_of_cons. intros [?|?]; congruence.
Qed.

Lemma dict_set_values {V : Type} (k : string) (v : V) (d : list (string * V)) (x : V) :
  x ∈ map snd (dict_set k v d) -> x = v \/ x ∈ map snd d.
Proof.
  induction d as [|[k' v'] d IH]; cbn [dict_set map snd].
  - rewrite list_elem_of_singleton. auto.
  - destruct (String.eqb k' k); cbn [map snd]; rewrite !elem_of_cons.
    + tauto.
    + intros [?|Hin]; [tauto|]. apply IH in Hin. tauto.
Qed.

Lemma dict_set_keyed {V : Type} (key : V -> string) (x : V) (d : list (string * V)) :
  Forall (fun kv => kv.1 = key kv.2) d ->
  Forall (fun kv => kv.1 = key kv.2) (dict_set (key x) x d).
Proof.
  induction d as [|[k' v'] d IH]; intros Hd; cbn [dict_set].
  - repeat constructor.
  - inversion Hd as [|kv d0 Hk Hd0]; subst.
    destruct (String.eqb_spec k' (key x)) as [->|Hne].
    + constructor; [reflexivity | exact Hd0].
    + constructor; [exact Hk | now apply IH].
Qed.

Lemma tagged_keys {V : Type} (key : V -> string) (d : list (string * V)) :
  Forall (fun kv => kv.1 = key kv.2) d -> map fst d = map key (map snd d).
Proof.
  induction 1 as [|[k v] d Hk _ IH]; [reflexivity|].
  simpl in *. now rewrite Hk, IH.
Qed.

(** A dictionary built by keyed assignments: its keys are the keys of the
    elements, each one once, and its values are elements. *)
Lemma dict_fold_spec {V : Type} (key : V -> string) (xs : list V)
    (d : list (string * V)) :
  Forall (fun kv => kv.1 = key kv.2) d ->
  NoDup (map fst d) ->
  let d' := foldl (fun d x => dict_set (key x) x d) d xs in
  Forall (fun kv => kv.1 = key kv.2) d'
  /\ NoDup (map fst d')
  /\ (forall v, v ∈ map snd d' -> v ∈ map snd d \/ v ∈ xs)
  /\ (forall k, k ∈ map fst d -> k ∈ map fst d')
  /\ (forall x, x ∈ xs -> key x ∈ map fst d').
Proof.
  revert d; induction xs as [|x xs IH]; intros d Htag Hnd; cbn [foldl].
  - repeat split; auto. intros x Hx. now apply elem_of_nil in Hx.
  - assert (Hkeys := dict_set_keys (key x) x d).
    assert (Hin1 : forall k, k ∈ map fst d -> k ∈ map fst (dict_set (key x) x d)).
    { intros k Hk. rewrite Hkeys. destruct (decide _); [exact Hk|].
      apply elem_of_app. now left. }
    assert (Hx1 : key x ∈ map fst (dict_set (key x) x d)).
    { rewrite Hkeys. destruct (decide _) as [Hin|_]; [exact Hin|].
      apply elem_of_app. right. now apply list_elem_of_singleton. }
    destruct (IH (dict_set (key x) x d)) as (Htag' & Hnd' & Hvals & Hmono & Hcov).
    + now apply dict_set_keyed.
    + rewrite Hkeys. destruct (decide _) as [_|Hnew]; [exact Hnd|].
      apply stdpp.list_relations.list.NoDup_app.
      split; [exact Hnd|]. split; [|apply NoDup_singleton].
      intros k Hk ->%list_elem_of_singleton. contradiction.
    + split; [exact Htag'|]. split; [exact Hnd'|]. split; [|split].
      * intros v Hv. apply Hvals in Hv as [Hv|Hv].
        -- apply dict_set_values in Hv as [->|Hv]; [right; left | now left].
        -- right. now right.
      * intros k Hk. apply Hmono, Hin1, Hk.
      * intros y Hy. apply elem_of_cons in Hy as [->|Hy]; [apply Hmono, Hx1|].
        now apply Hcov.
Qed.

(** X10: when the placement resolves, the list of targets is not empty and
    holds no block twice, and the targets bear pairwise different names.
    Each target is what the placement says: the object itself, its data
    block, its active material, or the material of one of its slots; and
    for the placement on all materials every material of a slot has a
    target of its name. *)
Theorem resolved_targets_sound (h : heap) (pl : placement_t) (obj : bobject)
    (idblocks : list ref) :
  resolve_targets h pl obj = inr idblocks ->
  idblocks <> []
  /\ NoDup idblocks
  /\ NoDup (map (fun r => id_name (h r)) idblocks)
  /\ (forall r, r ∈ idblocks ->
        match pl with
        | OBJECT | PLACEMENT_NONE => r = ob_self obj
        | DATA => ob_data obj = Some r
        | ACTIVE_MATERIAL => ob_active_material obj = Some r
        | ALL_MATERIALS => Some r ∈ ob_material_slots obj
        end)
  /\ (pl = ALL_MATERIALS ->
      forall m, Some m ∈ ob_material_slots obj ->
      exists r, r ∈ idblocks /\ id_name (h r) = id_name (h m)).
Proof.
  assert (Hone : forall r : ref,
             [r] <> [] /\ NoDup [r] /\ NoDup (map (fun r => id_name (h r)) [r])).
  { intros r. split; [discriminate|]. split; apply NoDup_singleton. }
  unfold resolve_targets. destruct pl.
  - intros [= <-]. destruct (Hone (ob_self obj)) as (H1 & H2 & H3).
    repeat split; try assumption; [|discriminate].
    intros r Hr. now apply list_elem_of_singleton in Hr.
  - destruct (ob_data obj) as [d|]; [|discriminate]. intros [= <-].
    destruct (Hone d) as (H1 & H2 & H3).
    repeat split; try assumption; [|discriminate].
    intros r Hr. apply list_elem_of_singleton in Hr. now subst.
  - destruct (ob_active_material obj) as [mat|]; [|discriminate]. intros [= <-].
    destruct (Hone mat) as (H1 & H2 & H3).
    repeat split; try assumption; [|discriminate].
    intros r Hr. apply list_elem_of_singleton in Hr. now subst.
  - destruct (omap id (ob_material_slots obj)) as [|m0 mats] eqn:Hmats;
      [discriminate|].
    intros [= <-]. unfold dict_values, dict_by.
    destruct (dict_fold_spec (fun m => id_name (h m)) (m0 :: mats) [])
      as (Htag & Hnd & Hvals & _ & Hcov); [constructor | constructor|].
    cbv zeta in Htag, Hnd, Hvals, Hcov.
    set (d := foldl _ [] (m0 :: mats)) in *.
    rewrite (tagged_keys (fun m => id_name (h m)) d Htag) in Hnd, Hcov.
    assert (Hslot : forall m, m ∈ m0 :: mats <-> Some m ∈ ob_material_slots obj).
    { intros m. rewrite <- Hmats, list_elem_of_omap. split.
      - intros ([x|] & Hx & Hid); [|discriminate]. simpl in Hid. congruence.
      - intros Hm. now exists (Some m). }
    split.
    { intros Hnil. specialize (Hcov m0 ltac:(left)).
      rewrite Hnil in Hcov. now apply elem_of_nil in Hcov. }
    split; [exact (NoDup_fmap_1 _ _ Hnd)|]. split; [exact Hnd|]. split.
    + intros r Hr. apply Hvals in Hr as [Hr|Hr]; [now apply elem_of_nil in Hr|].
      now apply Hslot.
    + intros _ m Hm. apply Hslot, Hcov in Hm.
      apply list_elem_of_fmap in Hm as (r & Hname & Hr). now exists r.
  - intros [= <-]. destruct (Hone (ob_self obj)) as (H1 & H2 & H3).
    repeat split; try assumption; [|discriminate].
    intros r Hr. now apply list_elem_of_singleton in Hr.
Qed.

Lemma resolved_targets_sound_witness :
  resolve_targets bare_scene ALL_MATERIALS cube = inr [2%nat; 3%nat]
  /\ NoDup [2%nat; 3%nat].
Proof.
  split; [reflexivity|].
  apply (resolved_targets_sound bare_scene ALL_MATERIALS cube [2%nat; 3%nat]).
  reflexivity.
Defined.

(** ** The placement menu *)

Lemma menu_ids (obj : bobject) :
  item_ids (get_targets_for_object obj)
  = (["OBJECT"]
     ++ match ob_data obj with Some _ => ["DATA"] | None => [] end
     ++ match ob_material_slots obj with
        | [] => []
        | _ :: _ => ["ACTIVE_MATERIAL"; "ALL_MATERIALS"]
        end)%list.
Proof.
  unfold get_targets_for_object, item_ids.
  destruct (ob_data obj), (ob_material_slots obj); reflexivity.
Qed.

(** X11: the placement menu starts with the object itself whatever is
    selected, and offers no identifier twice.  For an active object it
    offers the object data exactly when the object has a data block, and
    the two material placements exactly when the object has material slots;
    it offers nothing but these four.  Without an active object it offers
    the object alone. *)
Theorem placement_menu (ctx : context) :
  let ids := item_ids (target_items_callback ctx) in
  head ids = Some "OBJECT"
  /\ NoDup ids
  /\ (forall id, id ∈ ids ->
        exists pl, pl <> PLACEMENT_NONE /\ id = placement_id pl)
  /\ match active_object ctx with
     | None => ids = ["OBJECT"]
     | Some obj =>
         ("DATA" ∈ ids <-> is_Some (ob_data obj))
         /\ ("ACTIVE_MATERIAL" ∈ ids <-> ob_material_slots obj <> [])
         /\ ("ALL_MATERIALS" ∈ ids <-> ob_material_slots obj <> [])
     end.
Proof.
  intros ids. unfold ids, target_items_callback.
  assert (Hnames : forall id,
             id ∈ ["OBJECT"; "DATA"; "ACTIVE_MATERIAL"; "ALL_MATERIALS"] ->
             exists pl, pl <> PLACEMENT_NONE /\ id = placement_id pl).
  { intros id. rewrite !elem_of_cons, elem_of_nil.
    intros [->|[->|[->|[->|[]]]]];
      [exists OBJECT | exists DATA | exists ACTIVE_MATERIAL | exists ALL_MATERIALS];
      split; (discriminate || reflexivity). }
  destruct (active_object ctx) as [obj|].
  - rewrite menu_ids.
    destruct (ob_data obj) as [d|], (ob_material_slots obj) as [|slot slots];
      cbn [app];
      (split; [reflexivity|]);
      (split; [apply (bool_decide_unpack _); vm_compute; reflexivity|]);
      (split;
       [intros id Hid; apply Hnames; revert Hid;
        rewrite !elem_of_cons, !elem_of_nil; tauto|]);
      repeat match goal with |- _ /\ _ => split end;
      (split; intros H;
       first
         [ now eexists
         | discriminate
         | apply (bool_decide_unpack _); vm_compute; reflexivity
         | exfalso;
           first
             [ destruct H; discriminate
             | congruence
             | revert H; apply (bool_decide_unpack _); vm_compute; reflexivity ] ]).
  - cbn. split; [reflexivity|]. split; [apply NoDup_singleton|].
    split; [|reflexivity].
    intros id Hid. apply Hnames. apply elem_of_cons. left.
    now apply list_elem_of_singleton in Hid.
Qed.

Lemma omap_id_nil (slots : list (option ref)) :
  omap id slots = [] <-> forall slot, slot ∈ slots -> slot = None.
Proof.
  split.
  - intros Hnil [m|] Hin; [|reflexivity].
    assert (Hm : m ∈ omap id slots) by (apply list_elem_of_omap; now exists (Some m)).
    rewrite Hnil in Hm. now apply elem_of_nil in Hm.
  - intros Hall. destruct (omap id slots) as [|m mats] eqn:Hmats; [reflexivity|].
    assert (Hm : m ∈ omap id slots) by (rewrite Hmats; left).
    apply list_elem_of_omap in Hm as (slot & Hin & Hid).
    rewrite (Hall slot Hin) in Hid. discriminate.
Qed.

(** X12: what the menu offers against what [execute] resolves.  The object
    always resolves, to itself.  The object data resolves exactly when the
    menu offers it, and fails with its error otherwise.  The placement on
    all materials resolves exactly when some slot holds a material, and
    then the menu offers it; but the menu offers it as soon as there is a
    slot, so with nothing but empty slots the offered placement fails with
    the no-materials error. *)
Theorem offered_placements_resolve (h : heap) (obj : bobject) :
  let ids := item_ids (get_targets_for_object obj) in
  resolve_targets h OBJECT obj = inr [ob_self obj]
  /\ ("DATA" ∈ ids <-> exists d, resolve_targets h DATA obj = inr [d])
  /\ ("DATA" ∉ ids <->
      resolve_targets h DATA obj = inl "Selected object has no Data block.")
  /\ ((exists l, resolve_targets h ALL_MATERIALS obj = inr l) <->
      exists m, Some m ∈ ob_material_slots obj)
  /\ ((exists l, resolve_targets h ALL_MATERIALS obj = inr l) ->
      "ALL_MATERIALS" ∈ ids)
  /\ ((forall slot, slot ∈ ob_material_slots obj -> slot = None) <->
      resolve_targets h ALL_MATERIALS obj = inl "No materials on object.").
Proof.
  intros ids.
  assert (Hdata : "DATA" ∈ ids <-> is_Some (ob_data obj)).
  { unfold ids. rewrite menu_ids.
    destruct (ob_data obj), (ob_material_slots obj); cbn [app];
      (split; intros H;
       first [ now eexists
             | apply (bool_decide_unpack _); vm_compute; reflexivity
             | exfalso;
               first [ destruct H; discriminate
                     | revert H; apply (bool_decide_unpack _); vm_compute;
                       reflexivity ] ]). }
  assert (Hall : forall l, resolve_targets h ALL_MATERIALS obj = inr l ->
                           omap id (ob_material_slots obj) <> []).
  { intros l. unfold resolve_targets.
    destruct (omap id (ob_material_slots obj)); [discriminate|]. discriminate. }
  split; [reflexivity|]. split; [|split; [|split; [|split]]].
  - rewrite Hdata. unfold resolve_targets.
    destruct (ob_data obj) as [d|]; split.
    + intros _. now exists d.
    + intros _. now eexists.
    + intros [x Hx]. discriminate.
    + intros [d Hd]. discriminate.
  - rewrite Hdata. unfold resolve_targets.
    destruct (ob_data obj) as [d|]; split.
    + intros Hno. exfalso. apply Hno. now eexists.
    + discriminate.
    + reflexivity.
    + intros _ [x Hx]. discriminate.
  - split.
    + intros [l Hl]. apply Hall in Hl.
      destruct (omap id (ob_material_slots obj)) as [|m mats] eqn:Hmats;
        [contradiction|].
      exists m. assert (Hm : m ∈ omap id (ob_material_slots obj))
        by (rewrite Hmats; left).
      apply list_elem_of_omap in Hm as ([x|] & Hin & Hid); [|discriminate].
      simpl in Hid. congruence.
    + intros [m Hm]. unfold resolve_targets.
      destruct (omap id (ob_material_slots obj)) as [|m0 mats] eqn:Hmats;
        [|now eexists].
      rewrite omap_id_nil in Hmats. specialize (Hmats _ Hm). discriminate.
  - intros [l Hl]. apply Hall in Hl. unfold ids. rewrite menu_ids.
    destruct (ob_material_slots obj) as [|slot slots]; [now contradiction Hl|].
    destruct (ob_data obj); cbn [app];
      apply (bool_decide_unpack _); vm_compute; reflexivity.
  - rewrite <- omap_id_nil. unfold resolve_targets.
    destruct (omap id (ob_material_slots obj)); split;
      try reflexivity; discriminate.
Qed.

(** ** The panel *)

Lemma resolve_targets_messages (h : heap) (pl : placement_t) (obj : bobject)
    (message : string) :
  resolve_targets h pl obj = inl message ->
  message <> "No active object selected.".
Proof.
  unfold resolve_targets.
  destruct pl, (ob_data obj), (ob_active_material obj),
    (omap id (ob_material_slots obj)); intros [= <-]; discriminate.
Qed.

(** X13: the panel is shown exactly when there is an active object, which
    is when [draw] can build its layout and when [execute] does not fail for
    want of an active object.  The layout holds one button, for the operator
    [cpg.generate], and shows no field twice. *)
Theorem panel_polls_active_object (rt : runtime) (ctx : context) (h : heap) :
  (poll ctx = true <-> is_Some (draw ctx h))
  /\ (poll ctx = false <->
      execute rt ctx h = Returned CANCELLED ERROR "No active object selected." h)
  /\ (forall layout, draw ctx h = Some layout ->
        List.flat_map operators_of layout = ["cpg.generate"]
        /\ NoDup (shown_fields layout)).
Proof.
  split; [|split].
  - unfold poll, draw. destruct (active_object ctx); split;
      intros H; try discriminate; try (now eexists); try reflexivity.
    destruct H; discriminate.
  - unfold poll. destruct (active_object ctx) as [obj|] eqn:Hobj;
      [|split; [intros _; unfold execute; now rewrite Hobj | reflexivity]].
    split; [discriminate|]. intros Hrun. exfalso.
    destruct (resolve_targets h (placement (cpg_props ctx)) obj) as [msg|l] eqn:Hres.
    + unfold execute in Hrun. rewrite Hobj, Hres in Hrun.
      apply resolve_targets_messages in Hres. congruence.
    + pose proof (execute_resolved rt ctx obj l h Hobj Hres) as Hcases.
      cbv zeta in Hcases.
      destruct ((0 <? count (cpg_props ctx)) && negb _).
      * rewrite Hcases in Hrun. discriminate.
      * destruct Hcases as (h' & _ & Hf). rewrite Hf in Hrun. discriminate.
  - intros layout. unfold draw.
    destruct (active_object ctx) as [obj|]; [|discriminate].
    intros [= <-]. unfold shown_fields, type_box, name_box.
    destruct (prop_type (cpg_props ctx)), (auto_increment (cpg_props ctx));
      (split; [reflexivity | apply (bool_decide_unpack _); vm_compute; reflexivity]).
Qed.

Lemma write_names_ext (rt : runtime) (p q : CPG_Props) (idblocks : list ref)
    (names : list string) (h : heap) :
  overwrite_existing p = overwrite_existing q ->
  prop_values rt p = prop_values rt q ->
  write_names rt p idblocks names h = write_names rt q idblocks names h.
Proof.
  intros Hover Hvals. revert h; induction names as [|name rest IH]; intros h;
    cbn [write_names]; [reflexivity|].
  rewrite Hover, Hvals.
  destruct (negb _); [reflexivity|].
  destruct (apply_to_targets _ _ _ _ _ _); [apply IH | reflexivity].
Qed.

Lemma names_from_ext (p q : CPG_Props) (n : nat) (i j : Z) :
  (forall k, (k < n)%nat ->
             prop_name p (i + Z.of_nat k) = prop_name q (j + Z.of_nat k)) ->
  names_from p n i = names_from q n j.
Proof.
  revert i j; induction n as [|n IH]; intros i j Hnames; [reflexivity|].
  cbn [names_from]. f_equal.
  - specialize (Hnames 0%nat ltac:(lia)). now rewrite !Z.add_0_r in Hnames.
  - apply IH. intros k Hk. specialize (Hnames (S k) ltac:(lia)).
    replace (i + 1 + Z.of_nat k) with (i + Z.of_nat (S k)) by lia.
    replace (j + 1 + Z.of_nat k) with (j + Z.of_nat (S k)) by lia.
    exact Hnames.
Qed.

(** Two forms that ask for the same count, placement and policy, hand the
    same arguments to [idprop_apply_ui] and generate the same names, give
    the same run. *)
Lemma execute_ext (rt : runtime) (p q : CPG_Props) (obj : option bobject) (h : heap) :
  count p = count q -> placement p = placement q ->
  overwrite_existing p = overwrite_existing q ->
  prop_values rt p = prop_values rt q ->
  generated_names p = generated_names q ->
  execute rt {| cpg_props := p; active_object := obj |} h
  = execute rt {| cpg_props := q; active_object := obj |} h.
Proof.
  intros Hcount Hpl Hover Hvals Hnames.
  unfold execute. cbn [cpg_props active_object].
  destruct obj as [obj|]; [|reflexivity]. rewrite <- Hpl.
  destruct (resolve_targets h (placement p) obj) as [msg|idblocks]; [reflexivity|].
  rewrite !generate_loop_names.
  fold (generated_names p). fold (generated_names q).
  rewrite <- Hnames, <- (write_names_ext rt p q) by assumption.
  unfold created_message. rewrite <- Hcount.
  destruct (write_names _ _ _ _ _); reflexivity.
Qed.

Lemma prop_name_no_index (props : CPG_Props) (idx idx' : Z) :
  auto_increment props = false -> prop_name props idx = prop_name props idx'.
Proof. intros Hauto. rewrite !prop_name_append. cbv zeta. now rewrite Hauto. Qed.

(** Reads, out of the agreement on the fields shown, the equation for one
    field when that field is shown. *)
Ltac agree_on H f :=
  try (let E := fresh "E" in
       assert (E := H f ltac:(apply (bool_decide_unpack _); vm_compute; reflexivity));
       vm_compute in E).

Ltac agree_on_all H :=
  agree_on H "count"; agree_on H "prop_type";
  agree_on H "int_default"; agree_on H "int_min"; agree_on H "int_max";
  agree_on H "float_default"; agree_on H "float_min"; agree_on H "float_max";
  agree_on H "float_soft_min"; agree_on H "float_soft_max";
  agree_on H "float_subtype"; agree_on H "bool_default";
  agree_on H "string_default"; agree_on H "string_description";
  agree_on H "base_name"; agree_on H "free_prefix"; agree_on H "free_suffix";
  agree_on H "auto_increment"; agree_on H "increment_start_from";
  agree_on H "increment_as_prefix"; agree_on H "placement";
  agree_on H "overwrite_existing".

(** X14: the outcome of [execute] depends on the form through the fields
    that the panel shows for the chosen type and numbering mode, and through
    the description, which [execute] reads for every type although the panel
    shows it for strings only.  Two forms that agree on these give the same
    outcome on the same scene; the fields of the other types, and the start
    index and the position of the number while numbering is off, have no
    effect. *)
Theorem outcome_depends_on_shown_fields (rt : runtime) (p q : CPG_Props)
    (obj : bobject) (h : heap) (layout : list widget) :
  draw {| cpg_props := p; active_object := Some obj |} h = Some layout ->
  (forall f, f ∈ shown_fields layout -> same_field f p q) ->
  string_description p = string_description q ->
  execute rt {| cpg_props := p; active_object := Some obj |} h
  = execute rt {| cpg_props := q; active_object := Some obj |} h.
Proof.
  intros Hdraw Hsame Hdesc.
  unfold draw in Hdraw. cbn [cpg_props active_object] in Hdraw.
  injection Hdraw as <-.
  unfold type_box, name_box in Hsame.
  destruct p as [c1 ty1 id1 imin1 imax1 fd1 fmin1 fmax1 fsmin1 fsmax1 fst1
                 bd1 sd1 sdesc1 base1 pre1 suf1 auto1 start1 first1 pl1 over1].
  destruct q as [c2 ty2 id2 imin2 imax2 fd2 fmin2 fmax2 fsmin2 fsmax2 fst2
                 bd2 sd2 sdesc2 base2 pre2 suf2 auto2 start2 first2 pl2 over2].
  cbn [prop_type auto_increment string_description] in Hsame, Hdesc.
  subst sdesc2.
  destruct ty1, auto1; agree_on_all Hsame; subst;
    (apply execute_ext;
     [ reflexivity | reflexivity | reflexivity | reflexivity
     | unfold generated_names; apply names_from_ext; intros k _ ]).
  all: try reflexivity.
  all: match goal with
       | |- prop_name ?P _ = prop_name ?Q _ =>
           transitivity (prop_name P 0);
           [apply prop_name_no_index; reflexivity|];
           transitivity (prop_name Q 0);
           [|apply prop_name_no_index; reflexivity]
       end.
  all: destruct first1, first2; reflexivity.
Qed.

Lemma outcome_depends_on_shown_fields_witness :
  execute sample_runtime keep_context scene_x7
  = execute sample_runtime
      {| cpg_props :=
           with_naming
             (with_float_range keep_props PrimFloat.nan PrimFloat.one
                PrimFloat.two PrimFloat.zero)
             "" "x" "" false 7 false;
         active_object := Some cube |}
      scene_x7.
Proof.
  eapply (outcome_depends_on_shown_fields sample_runtime keep_props _ cube scene_x7);
    [reflexivity | | reflexivity].
  intros f Hf. apply list_elem_of_In in Hf. simpl in Hf.
  repeat destruct Hf as [<-|Hf]; try (vm_compute; reflexivity). contradiction.
Defined.

(** ** Running twice *)

Lemma resolve_targets_names (h h' : heap) (pl : placement_t) (obj : bobject) :
  (forall r, id_name (h' r) = id_name (h r)) ->
  resolve_targets h' pl obj = resolve_targets h pl obj.
Proof.
  intros Hn. unfold resolve_targets. destruct pl; try reflexivity.
  destruct (omap id (ob_material_slots obj)) as [|m mats]; [reflexivity|].
  f_equal. f_equal. unfold dict_by.
  generalize (@nil (string * ref)). generalize (m :: mats).
  induction l as [|x xs IH]; intros d; cbn [foldl]; [reflexivity|].
  now rewrite Hn, IH.
Qed.

(** X15: a finished run followed by a second run of the same form on the
    same selection changes nothing more: the second run finishes with the
    same report and leaves every block as the first one left it. *)
Theorem second_run_changes_nothing (rt : runtime) (ctx : context) (h h1 : heap)
    (level : report_level) (message : string) :
  execute rt ctx h = Returned FINISHED level message h1 ->
  exists h2,
    execute rt ctx h1 = Returned FINISHED level message h2
    /\ forall r, h2 r = h1 r.
Proof.
  intros Hrun. set (props := cpg_props ctx).
  destruct (execute_returns rt ctx h)
    as [(lvl & msg & Hc & _)|(obj & idblocks & h1' & Hobj & Hres & Hnames & Hf)];
    [rewrite Hc in Hrun; discriminate|].
  rewrite Hf in Hrun. injection Hrun as <- <- <-.
  fold props in Hres, Hnames.
  destruct (names_entries rt props idblocks _ h h1' Hnames)
    as (Hn & Hsame & Hother & Hin).
  assert (Hres1 : resolve_targets h1' (placement props) obj = inr idblocks)
    by (rewrite (resolve_targets_names h h1') by exact Hn; exact Hres).
  pose proof (execute_resolved rt ctx obj idblocks h Hobj Hres) as Hfirst.
  pose proof (execute_resolved rt ctx obj idblocks h1' Hobj Hres1) as Hsecond.
  cbv zeta in Hfirst, Hsecond. fold props in Hfirst, Hsecond.
  destruct ((0 <? count props) && negb _);
    [rewrite Hfirst in Hf; discriminate|].
  destruct Hsecond as (h2 & Hnames2 & Hrun2).
  exists h2. split; [exact Hrun2|].
  destruct (names_entries rt props idblocks _ h1' h2 Hnames2)
    as (Hn2 & Hsame2 & Hother2 & Hin2).
  intros r. destruct (decide (r ∈ idblocks)) as [Hr|Hr]; [|now apply Hsame2].
  apply idblock_eq; [apply Hn2 | |]; apply map_eq; intros k.
  - destruct (decide (k ∈ generated_names props)) as [Hk|Hk].
    + destruct (Hin2 r k Hr Hk) as [-> _]. destruct (Hin r k Hr Hk) as [-> _].
      now rewrite value_after_idem.
    + now destruct (Hother2 r k Hk) as [-> _].
  - destruct (decide (k ∈ generated_names props)) as [Hk|Hk].
    + destruct (Hin2 r k Hr Hk) as [_ ->]. destruct (Hin r k Hr Hk) as [-> ->].
      apply ui_after_idem.
    + now destruct (Hother2 r k Hk) as [_ ->].
Qed.

Lemma second_run_changes_nothing_witness :
  exists h1 h2,
    execute sample_runtime flag_context bare_scene
    = Returned FINISHED INFO "Created 2 custom propertie(s) on 2 target(s)." h1
    /\ execute sample_runtime flag_context h1
       = Returned FINISHED INFO "Created 2 custom propertie(s) on 2 target(s)." h2
    /\ h2 2%nat = h1 2%nat.
Proof.
  eexists.
  destruct (second_run_changes_nothing sample_runtime flag_context bare_scene _
              INFO "Created 2 custom propertie(s) on 2 target(s)." eq_refl)
    as (h2 & Hrun2 & Hsame).
  exists h2. split; [reflexivity|]. split; [exact Hrun2 | apply Hsame].
Defined.

(** ** The UI data of a run *)

(** X16: the UI fields that a run sets on its entries.  The description is
    set, for every type, when the description of the form stripped of its
    blanks is not empty.  An integer gets its minimum and maximum put in
    order, its default and the subtype NONE, and no soft bound; a float
    gets bounds and soft bounds, each pair put in order, its default and
    the chosen subtype; a boolean or a string gets its default and nothing
    else. *)
Theorem run_data_fields (rt : runtime) (props : CPG_Props) (f : string) :
  let desc :=
    if Py.str_truthy (string_description props)
    then str_strip rt (string_description props) else "" in
  run_data rt props !! f =
    if String.eqb "description" f
    then (if Py.str_truthy desc then Some (VStr desc) else None)
    else
      match prop_type props with
      | INT =>
          if String.eqb "min" f
          then Some (VInt (Z.min (int_min props) (int_max props)))
          else if String.eqb "max" f
          then Some (VInt (Z.max (int_min props) (int_max props)))
          else if String.eqb "default" f then Some (VInt (int_default props))
          else if String.eqb "subtype" f then Some (VStr "NONE")
          else None
      | FLOAT =>
          let bounds := order_floats (float_min props) (float_max props) in
          let soft := order_floats (float_soft_min props) (float_soft_max props) in
          if String.eqb "min" f then Some (VFloat bounds.1)
          else if String.eqb "max" f then Some (VFloat bounds.2)
          else if String.eqb "soft_min" f then Some (VFloat soft.1)
          else if String.eqb "soft_max" f then Some (VFloat soft.2)
          else if String.eqb "default" f then Some (VFloat (float_default props))
          else if String.eqb "subtype" f
          then Some (VStr (subtype_id (float_subtype props)))
          else None
      | BOOL =>
          if String.eqb "default" f then Some (VBool (bool_default props)) else None
      | STRING =>
          if String.eqb "default" f then Some (VStr (string_default props)) else None
      end.
Proof.
  intros desc. unfold run_data. rewrite ui_data_lookup.
  unfold given_field, prop_values. fold (description rt props).
  change (description rt props) with desc.
  destruct (prop_type props).
  - rewrite order_ints_spec. cbn [a_ptype a_default a_min_val a_max_val a_soft_min
      a_soft_max a_subtype a_desc].
    destruct (Py.str_truthy desc);
      repeat match goal with
             | |- context [String.eqb ?a f] =>
                 destruct (String.eqb_spec a f) as [<-|?]
             end; reflexivity.
  - destruct (order_floats (float_min props) (float_max props)) as [lo hi].
    destruct (order_floats (float_soft_min props) (float_soft_max props))
      as [slo shi].
    cbn [a_ptype a_default a_min_val a_max_val a_soft_min a_soft_max a_subtype
         a_desc fst snd].
    destruct (Py.str_truthy desc);
      repeat match goal with
             | |- context [String.eqb ?a f] =>
                 destruct (String.eqb_spec a f) as [<-|?]
             end; reflexivity.
  - cbn [a_ptype a_default a_min_val a_max_val a_soft_min a_soft_max a_subtype
         a_desc].
    destruct (Py.str_truthy desc);
      repeat match goal with
             | |- context [String.eqb ?a f] =>
                 destruct (String.eqb_spec a f) as [<-|?]
             end; reflexivity.
  - cbn [a_ptype a_default a_min_val a_max_val a_soft_min a_soft_max a_subtype
         a_desc].
    destruct (Py.str_truthy desc);
      repeat match goal with
             | |- context [String.eqb ?a f] =>
                 destruct (String.eqb_spec a f) as [<-|?]
             end; reflexivity.
Qed.

(** ** More examples *)

(** The description of the form reaches an integer property, though the
    panel shows the description field for strings only. *)
Example hidden_description_is_applied :
  default ∅
    (id_ui (final_heap
              (execute sample_runtime
                 {| cpg_props :=
                      {| count := 1; prop_type := INT; int_default := 0;
                         int_min := 0; int_max := 100;
                         float_default := PrimFloat.zero;
                         float_min := PrimFloat.zero; float_max := PrimFloat.one;
                         float_soft_min := PrimFloat.zero;
                         float_soft_max := PrimFloat.one;
                         float_subtype := NONE; bool_default := false;
                         string_default := ""; string_description := "tip";
                         base_name := "prop"; free_prefix := "";
                         free_suffix := ""; auto_increment := false;
                         increment_start_from := 0;
                         increment_as_prefix := true; placement := OBJECT;
                         overwrite_existing := true |};
                    active_object := Some cube |}
                 bare_scene) 0%nat) !! "prop") !! "description"
  = Some (VStr "tip").
Proof. vm_compute. reflexivity. Qed.

Example menu_of_cube :
  item_ids (get_targets_for_object cube)
  = ["OBJECT"; "DATA"; "ACTIVE_MATERIAL"; "ALL_MATERIALS"].
Proof. reflexivity. Qed.

(** ** The type of the stored value *)

(** X17: after a call of [idprop_apply_ui] that returns, the value stored
    under the key is either of the chosen type or the very value the key
    held before the call; and when the key held a value whose conversion
    raises, that value is still there. *)
Theorem stored_value_has_type (rt : runtime) (idb idb' : idblock) (key : string)
    (ptype : prop_type_t) (dflt min_val max_val : option pyval)
    (desc subtype : option string) (soft_min soft_max : option pyval) :
  idprop_apply_ui rt idb key ptype dflt min_val max_val desc subtype
    soft_min soft_max = Some idb' ->
  exists v',
    id_props idb' !! key = Some v'
    /\ (kind_of v' = ptype \/ id_props idb !! key = Some v')
    /\ (forall v, id_props idb !! key = Some v -> convert rt ptype v = None ->
                  v' = v).
Proof.
  intros Hrun.
  destruct (idprop_apply_ui_stages _ _ _ _ _ _ _ _ _ _ _ _ Hrun)
    as (c & v & Hc & Hv & Hp & _ & _).
  exists (coerced rt ptype v). split; [rewrite Hp; apply lookup_insert_eq|].
  unfold create_if_missing in Hc.
  destruct (IDBlock.contains key idb) eqn:Hcont.
  - injection Hc as <-. split.
    + unfold coerced. destruct (convert rt ptype v) as [w|] eqn:Hconv.
      * left. exact (convert_kind rt ptype v w Hconv).
      * right. exact Hv.
    + intros v0 Hv0 Hconv. rewrite Hv in Hv0. injection Hv0 as <-.
      unfold coerced. now rewrite Hconv.
  - apply contains_false in Hcont.
    destruct (convert rt ptype _) as [v0|] eqn:Hconv0; [|discriminate].
    simpl in Hc. injection Hc as <-. simpl in Hv.
    rewrite lookup_insert_eq in Hv. injection Hv as <-.
    split.
    + left. unfold coerced. rewrite (convert_idem rt ptype _ v0 Hconv0).
      exact (convert_kind rt ptype _ v0 Hconv0).
    + intros v1 Hv1. congruence.
Qed.

Lemma stored_value_has_type_witness :
  exists idb',
    idprop_apply_ui sample_runtime
      {| id_name := "Cube"; id_props := {["x" := VStr "seven"]}; id_ui := ∅ |}
      "x" INT (Some (VInt 5)) None None None (Some "NONE") None None = Some idb'
    /\ id_props idb' !! "x" = Some (VStr "seven").
Proof.
  destruct (idprop_apply_ui sample_runtime
              {| id_name := "Cube"; id_props := {["x" := VStr "seven"]};
                 id_ui := ∅ |}
              "x" INT (Some (VInt 5)) None None None (Some "NONE") None None)
    as [idb'|] eqn:Hrun; [|vm_compute in Hrun; discriminate].
  destruct (stored_value_has_type sample_runtime _ idb' "x" INT (Some (VInt 5))
              None None None (Some "NONE") None None Hrun)
    as (v' & Hv' & _ & Hkept).
  exists idb'. split; [reflexivity|].
  rewrite Hv'. f_equal. apply Hkept; reflexivity.
Defined.
